(** * ia configure: a shallow embedding of [internetarchive/cli/ia_configure.py]

    The subcommand's [main] is embedded as a computation in a small
    state-and-exception monad.  The state is the Python object store (a
    finite map from addresses to mutable [dict] and [list] objects) together
    with the trace of observable events: every [print] with its stream, and
    every call of the [configure] collaborator with its arguments.
    [sys.exit] and uncaught exceptions are the two abnormal results.

    The collaborators outside the file ([session.whoami], [netrc.netrc],
    [configure]) are supplied by a [World]; the two library functions that
    turn objects into text ([json.dumps(_, indent=2)] and [repr] of a
    container) are section variables.

    [setup] is embedded as a function that adds the subcommand's parser to
    the parsers of the other subcommands, with the part of [argparse] that
    it uses: registration of options, one mutually exclusive group, parser
    defaults, and the reading of a command line made of exact option
    strings. *)

From stdpp Require Import gmap strings list fin_maps.
From Stdlib Require Import ZArith Ascii DecimalString.

Open Scope string_scope.

(** The two characters that the messages need and a literal cannot hold. *)
Definition dquote : string := String (ascii_of_nat 34) EmptyString.
Definition newline : string := String (ascii_of_nat 10) EmptyString.

(** ** Python values and the object store *)

Abbreviation loc := nat.

(** A value is an immutable scalar or a reference to a mutable container. *)
Inductive value :=
| VNone
| VBool (b : bool)
| VInt (z : Z)
| VStr (s : string)
| VRef (l : loc).

(** Dictionaries keep insertion order (it is what [json.dumps] prints), so
    they are association lists; [dict_get] and [dict_set] act on the first
    entry of a key, and [dict_set] keeps the keys free of duplicates. *)
Inductive obj :=
| ODict (d : list (string * value))
| OList (xs : list value).

Fixpoint dict_get {A} (k : string) (d : list (string * A)) : option A :=
  match d with
  | [] => None
  | (k', v) :: d' => if String.eqb k k' then Some v else dict_get k d'
  end.

Definition dict_has {A} (k : string) (d : list (string * A)) : bool :=
  match dict_get k d with Some _ => true | None => false end.

(** [d[k] = v]: an existing key keeps its position, a new key goes last. *)
Fixpoint dict_set {A} (k : string) (v : A) (d : list (string * A))
  : list (string * A) :=
  match d with
  | [] => [(k, v)]
  | (k', v') :: d' =>
      if String.eqb k k' then (k', v) :: d' else (k', v') :: dict_set k v d'
  end.

(** [del d[k]]; used only to state what "the entry is absent" means. *)
Fixpoint dict_remove {A} (k : string) (d : list (string * A))
  : list (string * A) :=
  match d with
  | [] => []
  | (k', v') :: d' =>
      if String.eqb k k' then dict_remove k d' else (k', v') :: dict_remove k d'
  end.

(** ** Exceptions, streams, messages and events *)

Inductive exn :=
| KeyError (k : string)
| AttributeError
| TypeError
| ValueError
| NetrcParseError
| FileNotFoundError
| AuthenticationError (msg : string)
| OtherError (name : string).

Inductive stream := Stdout | Stderr.

Definition stream_eqb (s1 s2 : stream) : bool :=
  match s1, s2 with
  | Stdout, Stdout | Stderr, Stderr => true
  | _, _ => false
  end.

(** One constructor per [print] call of [main], in source order. *)
Inductive message :=
| MsgCookiesBothMissing
| MsgCookieUserMissing
| MsgCookieSigMissing
| MsgCookieLine (user sig : string)
| MsgShowJson (text : string)
| MsgCredentialsValid (user : string)
| MsgCredentialsInvalid
| MsgNetrcBanner
| MsgNetrcParseError
| MsgNetrcNotFound
| MsgInteractiveBanner
| MsgConfigSaved (saved_msg : string)
| MsgAuthenticationFailure (exc : string).

(** The text handed to [print] (which appends the line end itself). *)
Definition render (m : message) : string :=
  match m with
  | MsgCookiesBothMissing =>
      "error: 'logged-in-user' and 'logged-in-sig' cookies " ++
      "not found in config file, try reconfiguring."
  | MsgCookieUserMissing =>
      "error: 'logged-in-user' cookie not found in config file, " ++
      "try reconfiguring."
  | MsgCookieSigMissing =>
      "error: 'logged-in-sig' cookie not found in config file, " ++
      "try reconfiguring."
  | MsgCookieLine user sig =>
      "logged-in-user=" ++ user ++ "; logged-in-sig=" ++ sig
  | MsgShowJson text => text
  | MsgCredentialsValid user =>
      "The credentials for " ++ dquote ++ user ++ dquote ++ " are valid"
  | MsgCredentialsInvalid =>
      "Your credentials are invalid, check your configuration and try again"
  | MsgNetrcBanner => "Configuring 'ia' with netrc file..."
  | MsgNetrcParseError => "error: netrc.netrc() cannot parse your .netrc file."
  | MsgNetrcNotFound => "error: .netrc file not found."
  | MsgInteractiveBanner =>
      "Enter your Archive.org credentials below to configure 'ia'." ++ newline
  | MsgConfigSaved saved_msg => saved_msg
  | MsgAuthenticationFailure exc => newline ++ "error: " ++ exc
  end.

Inductive event :=
| Print (s : stream) (m : message)
| CallConfigure (username password : option string) (config_file host : value).

(** ** The monad *)

Record state := State {
  heap : gmap loc obj;
  trace : list event;
}.

Inductive result (A : Type) :=
| Ret (a : A)
| Exit (code : Z)
| Raise (e : exn).
Arguments Ret {A} a.
Arguments Exit {A} code.
Arguments Raise {A} e.

Definition M (A : Type) : Type := state → result A * state.

Definition ret {A} (a : A) : M A := λ σ, (Ret a, σ).

Definition bind {A B} (m : M A) (f : A → M B) : M B :=
  λ σ, match m σ with
       | (Ret a, σ') => f a σ'
       | (Exit c, σ') => (Exit c, σ')
       | (Raise e, σ') => (Raise e, σ')
       end.

Notation "x <- m ;; k" := (bind m (λ x, k))
  (at level 100, m at next level, right associativity,
   format "'[v' x  <-  m  ;;  '/' k ']'").
Notation "m ;; k" := (bind m (λ _, k))
  (at level 100, right associativity, format "'[v' m  ;;  '/' k ']'").

Definition raise {A} (e : exn) : M A := λ σ, (Raise e, σ).

(** [sys.exit(code)] raises [SystemExit], which no handler of [main]
    catches; [sys.exit()] is [sys_exit 0]. *)
Definition sys_exit {A} (code : Z) : M A := λ σ, (Exit code, σ).

Definition get_heap : M (gmap loc obj) := λ σ, (Ret (heap σ), σ).

Definition emit (e : event) : M unit :=
  λ σ, (Ret tt, State (heap σ) (trace σ ++ [e])).

Definition print (m : message) (s : stream) : M unit := emit (Print s m).

(** Allocation of a new object at an unused address. *)
Definition alloc (o : obj) : M loc :=
  λ σ, let l := fresh (dom (heap σ)) in
       (Ret l, State (<[l := o]> (heap σ)) (trace σ)).

Definition store (l : loc) (o : obj) : M unit :=
  λ σ, (Ret tt, State (<[l := o]> (heap σ)) (trace σ)).

(** [when c m]: an [if c:] statement without [else]. *)
Definition when (c : bool) (m : M unit) : M unit := if c then m else ret tt.

(** [try_except body handler]: an [except E] clause; [handler] says which
    exceptions it catches by returning [Some]. *)
Definition try_except {A} (body : M A) (handler : exn → option (M A)) : M A :=
  λ σ, match body σ with
       | (Raise e, σ') =>
           match handler e with
           | Some h => h σ'
           | None => (Raise e, σ')
           end
       | r => r
       end.

(** ** JSON trees: what [json.dumps] sees of an object graph *)

#[warnings="-register-all"] Inductive json :=
| JNull
| JBool (b : bool)
| JInt (z : Z)
| JStr (s : string)
| JArr (xs : list json)
| JObj (d : list (string * json)).

(** [reify n h v] reads the tree below [v], following at most [n] nested
    references; a cycle (or an address that holds nothing) exhausts it. *)
Fixpoint reify (n : nat) (h : gmap loc obj) (v : value) : option json :=
  match v with
  | VNone => Some JNull
  | VBool b => Some (JBool b)
  | VInt z => Some (JInt z)
  | VStr s => Some (JStr s)
  | VRef l =>
      match n with
      | O => None
      | S n' =>
          match h !! l with
          | Some (ODict d) =>
              JObj <$> mapM (λ kv, pair kv.1 <$> reify n' h kv.2) d
          | Some (OList xs) => JArr <$> mapM (reify n' h) xs
          | None => None
          end
      end
  end.

(** A chain of distinct references is no longer than the store, so this
    much fuel reads every acyclic graph ([to_json_complete] below). *)
Definition to_json (h : gmap loc obj) (v : value) : option json :=
  reify (S (size h)) h v.

(** The nesting depth of a tree. *)
Fixpoint depth (j : json) : nat :=
  match j with
  | JArr xs => S (foldr (λ x acc, depth x `max` acc) 0 xs)
  | JObj d => S (foldr (λ kv acc, depth kv.2 `max` acc) 0 d)
  | _ => 0
  end.

(** Two dictionaries with the same keys in the same order and related
    values. *)
Definition aligned {A B} (R : A → B → Prop)
    (d : list (string * A)) (js : list (string * B)) : Prop :=
  Forall2 (λ x y, x.1 = y.1 ∧ R x.2 y.2) d js.

(** The entries [d] of a dictionary read as the entries [js] of an object. *)
Definition entries_json (n : nat) (h : gmap loc obj)
    (d : list (string * value)) (js : list (string * json)) : Prop :=
  aligned (λ v j, reify n h v = Some j) d js.

(** The copy [c] of the configuration reads as the object [js]: its
    entries are read in the rest of the store, with fuel [n]. *)
Definition copy_reads (c : loc) (n : nat) (js : list (string * json))
    (σ : state) : Prop :=
  ∃ dc, heap σ !! c = Some (ODict dc) ∧
        entries_json n (delete c (heap σ)) dc js ∧
        (n ≤ size (delete c (heap σ)))%nat.

(** ** The command's inputs *)

(** What a call of a collaborator comes back with. *)
Inductive reply (A : Type) :=
| Returns (a : A)
| Raises (e : exn).
Arguments Returns {A} a.
Arguments Raises {A} e.

(** [args.session]: the configuration object, two values that are only
    passed on, and what [whoami()] answers. *)
Record Session := {
  config : value;
  config_file : value;
  host : value;
  whoami : reply value;
}.

(** [argparse] leaves an option that was not given at [None]. *)
Record Args := {
  username : option string;
  password : option string;
  netrc : bool;
  show : bool;
  check : bool;
  print_cookies : bool;
  session : Session;
}.

(** An entry of [netrc.netrc().hosts]: [(login, account, password)]. *)
Record netrc_entry := {
  login : string;
  account : option string;
  netrc_password : option string;
}.

(** What the collaborators do in this run: [netrc.netrc()] reads the user's
    file, [configure] exchanges the credentials and writes the file. *)
Record World := {
  netrc_netrc : reply (gmap string netrc_entry);
  configure : option string → option string → value → value → reply string;
}.

Section Command.

(** [json.dumps(_, indent=2)] on the tree it walks, and [repr] of a
    container (what [str] and an f-string give for it). *)
Variable json_dumps : json → string.
Variable py_repr : gmap loc obj → loc → string.

(** ** Python operations on values *)

Definition call {A} (r : reply A) : M A :=
  match r with
  | Returns a => ret a
  | Raises e => raise e
  end.

(** Reading an address.  Python has no dangling reference; the model
    reports one as an error of its own. *)
Definition deref (l : loc) : M obj :=
  h <- get_heap ;;
  match h !! l with
  | Some o => ret o
  | None => raise (OtherError "dangling reference")
  end.

(** [bool(v)], as [not v] uses it. *)
Definition truthy (h : gmap loc obj) (v : value) : bool :=
  match v with
  | VNone => false
  | VBool b => b
  | VInt z => negb (z =? 0)%Z
  | VStr s => negb (String.eqb s EmptyString)
  | VRef l =>
      match h !! l with
      | Some (ODict d) => match d with [] => false | _ => true end
      | Some (OList xs) => match xs with [] => false | _ => true end
      | None => true
      end
  end.

(** [str(v)], as an f-string field uses it. *)
Definition py_str (h : gmap loc obj) (v : value) : string :=
  match v with
  | VNone => "None"
  | VBool true => "True"
  | VBool false => "False"
  | VInt z => NilZero.string_of_int (Z.to_int z)
  | VStr s => s
  | VRef l => py_repr h l
  end.

(** [o.get(k, dflt)]: the attribute is looked up first (only a [dict] has
    it), then the default argument is evaluated, then the call is made. *)
Definition py_get (o : value) (k : string) (dflt : M value) : M value :=
  match o with
  | VRef l =>
      ob <- deref l ;;
      match ob with
      | ODict d =>
          dv <- dflt ;;
          ret (default dv (dict_get k d))
      | OList _ => raise AttributeError
      end
  | _ => raise AttributeError
  end.

(** [o.copy()]: a new object with the same entries, which are shared. *)
Definition py_copy (o : value) : M loc :=
  match o with
  | VRef l => ob <- deref l ;; alloc ob
  | _ => raise AttributeError
  end.

(** [k in c] for a container [c]: a key of a [dict], an element of a
    [list]. *)
Definition py_contains (k : string) (c : loc) : M bool :=
  ob <- deref c ;;
  match ob with
  | ODict d => ret (dict_has k d)
  | OList xs =>
      ret (existsb (λ x, match x with VStr s => String.eqb s k | _ => false end) xs)
  end.

(** [o[k]] with a string [k]. *)
Definition py_getitem (o : value) (k : string) : M value :=
  match o with
  | VRef l =>
      ob <- deref l ;;
      match ob with
      | ODict d =>
          match dict_get k d with
          | Some v => ret v
          | None => raise (KeyError k)
          end
      | OList _ => raise TypeError
      end
  | _ => raise TypeError
  end.

(** [c[k] = v] with a string [k]: in place. *)
Definition py_setitem (c : loc) (k : string) (v : value) : M unit :=
  ob <- deref c ;;
  match ob with
  | ODict d => store c (ODict (dict_set k v d))
  | OList _ => raise TypeError
  end.

(** [{}] *)
Definition new_dict : M value := l <- alloc (ODict []) ;; ret (VRef l).

(** [json.dumps(v, indent=2)]; a circular structure is a [ValueError]. *)
Definition py_json_dumps (v : value) : M string :=
  h <- get_heap ;;
  match to_json h v with
  | Some j => ret (json_dumps j)
  | None => raise ValueError
  end.

(** [v is True] *)
Definition is_True (v : value) : bool :=
  match v with VBool true => true | _ => false end.

(** [bool(s)] for an optional string of [argparse]. *)
Definition given (s : option string) : bool :=
  match s with
  | Some s => negb (String.eqb s EmptyString)
  | None => false
  end.

(** [password or ''] *)
Definition or_empty (s : option string) : string :=
  match s with
  | Some s => if String.eqb s EmptyString then EmptyString else s
  | None => EmptyString
  end.


(** ** [main], branch by branch *)

Variable w : World.

(** Lines 74-88: the body of [if args.print_cookies:]. *)
Definition print_cookies_body (args : Args) : M unit :=
  user <- (cookies <- py_get (config (session args)) "cookies" new_dict ;;
           py_get cookies "logged-in-user" (ret VNone)) ;;
  sig <- (cookies <- py_get (config (session args)) "cookies" new_dict ;;
          py_get cookies "logged-in-sig" (ret VNone)) ;;
  h <- get_heap ;;
  when (negb (truthy h user) || negb (truthy h sig))
    ((if negb (truthy h user) && negb (truthy h sig) then
        print MsgCookiesBothMissing Stderr
      else if negb (truthy h user) then
        print MsgCookieUserMissing Stderr
      else if negb (truthy h sig) then
        print MsgCookieSigMissing Stderr
      else ret tt) ;;
     sys_exit 1) ;;
  print (MsgCookieLine (py_str h user) (py_str h sig)) Stdout ;;
  sys_exit 0.

(** Lines 91-106: the body of [if args.show:]. *)
Definition show_body (args : Args) : M unit :=
  config <- py_copy (config (session args)) ;;
  (* Redact S3 secret *)
  (has_s3 <- py_contains "s3" config ;;
   when has_s3
     (s3 <- py_getitem (VRef config) "s3" ;;
      s3_config <- py_copy s3 ;;
      has_secret <- py_contains "secret" s3_config ;;
      when has_secret (py_setitem s3_config "secret" (VStr "REDACTED")) ;;
      py_setitem config "s3" (VRef s3_config))) ;;
  (* Redact logged-in-secret cookie *)
  (has_cookies <- py_contains "cookies" config ;;
   when has_cookies
     (cookies <- py_getitem (VRef config) "cookies" ;;
      cookies <- py_copy cookies ;;
      has_sig <- py_contains "logged-in-sig" cookies ;;
      when has_sig (py_setitem cookies "logged-in-sig" (VStr "REDACTED")) ;;
      py_setitem config "cookies" (VRef cookies))) ;;
  (* Print JSON *)
  text <- py_json_dumps (VRef config) ;;
  print (MsgShowJson text) Stdout ;;
  sys_exit 0.

(** The two blocks of lines 93-97 and 99-103 are one block, for a section
    and a key of it ([show_body_sections] below). *)
Definition redact_section (config : loc) (section key : string) : M unit :=
  present <- py_contains section config ;;
  when present
    (sec <- py_getitem (VRef config) section ;;
     sec_config <- py_copy sec ;;
     has_key <- py_contains key sec_config ;;
     when has_key (py_setitem sec_config key (VStr "REDACTED")) ;;
     py_setitem config section (VRef sec_config)).

(** Lines 109-116: the body of [if args.check:]. *)
Definition check_body (args : Args) : M unit :=
  whoami_info <- call (whoami (session args)) ;;
  success <- py_get whoami_info "success" (ret VNone) ;;
  if is_True success then
    user <- (value <- py_getitem whoami_info "value" ;;
             py_getitem value "username") ;;
    h <- get_heap ;;
    print (MsgCredentialsValid (py_str h user)) Stdout ;;
    sys_exit 0
  else
    print MsgCredentialsInvalid Stdout ;;
    sys_exit 1.

(** [configure(username, password, config_file=..., host=...)]: the call is
    recorded, the world answers. *)
Definition call_configure (u p : option string) (cf hst : value) : M string :=
  emit (CallConfigure u p cf hst) ;;
  call (configure w u p cf hst).

(** Lines 118-152: the [try] statement. *)
Definition configure_body (args : Args) : M unit :=
  try_except
    (if netrc args then
       print MsgNetrcBanner Stderr ;;
       n <- try_except (call (netrc_netrc w))
              (λ e, match e with
                    | NetrcParseError =>
                        Some (print MsgNetrcParseError Stderr ;; sys_exit 1)
                    | FileNotFoundError =>
                        Some (print MsgNetrcNotFound Stderr ;; sys_exit 1)
                    | _ => None
                    end) ;;
       entry <- match n !! "archive.org" with
                | Some entry => ret entry
                | None => raise (KeyError "archive.org")
                end ;;
       config_file_path <-
         call_configure (Some (login entry))
                        (Some (or_empty (netrc_password entry)))
                        (config_file (session args)) (host (session args)) ;;
       print (MsgConfigSaved ("Config saved to: " ++ config_file_path)) Stderr
     else
       when (negb (given (username args) && given (password args)))
         (print MsgInteractiveBanner Stdout) ;;
       config_file_path <-
         call_configure (username args) (password args)
                        (config_file (session args)) (host (session args)) ;;
       let saved_msg := "Config saved to: " ++ config_file_path in
       let saved_msg :=
         if negb (given (username args) && given (password args))
         then newline ++ saved_msg else saved_msg in
       print (MsgConfigSaved saved_msg) Stdout)
    (λ e, match e with
          | AuthenticationError exc =>
              Some (print (MsgAuthenticationFailure exc) Stderr ;; sys_exit 1)
          | _ => None
          end).

(** Lines 69-152. *)
Definition main (args : Args) : M unit :=
  when (print_cookies args) (print_cookies_body args) ;;
  when (show args) (show_body args) ;;
  when (check args) (check_body args) ;;
  configure_body args.

(** ** The dispatch as the specification words it

    "First matching branch wins, evaluated in this order": one of four
    actions is selected from the flags, and that action alone runs. *)

Inductive action :=
| ActPrintCookies
| ActShow
| ActCheck
| ActConfigure.

Definition select_action (args : Args) : action :=
  if print_cookies args then ActPrintCookies
  else if show args then ActShow
  else if check args then ActCheck
  else ActConfigure.

Definition run_action (a : action) (args : Args) : M unit :=
  match a with
  | ActPrintCookies => print_cookies_body args
  | ActShow => show_body args
  | ActCheck => check_body args
  | ActConfigure => configure_body args
  end.

End Command.

(** ** Redaction as the specification words it

    "A copy of the config in which s3.secret (if present) and
    cookies.logged-in-sig (if present) are each replaced by the literal
    string REDACTED", as a function on the JSON tree of the configuration. *)

Definition redact_key (key : string) (j : json) : json :=
  match j with
  | JObj d => if dict_has key d then JObj (dict_set key (JStr "REDACTED") d) else j
  | _ => j
  end.

Definition redact_in (section key : string) (d : list (string * json))
  : list (string * json) :=
  match dict_get section d with
  | Some sec => dict_set section (redact_key key sec) d
  | None => d
  end.

Definition redacted (j : json) : json :=
  match j with
  | JObj d => JObj (redact_in "cookies" "logged-in-sig" (redact_in "s3" "secret" d))
  | _ => j
  end.

(** The same, field by field.  [section_redacted key o o']: the section
    [o'] has the keys of [o] in the same order, [key] (if [o] has it) holds
    REDACTED, and every other key holds what it held. *)
Definition section_redacted (key : string) (o o' : option json) : Prop :=
  match o, o' with
  | None, None => True
  | Some (JObj s), Some (JObj s') =>
      s'.*1 = s.*1 ∧
      (∀ k, k ≠ key → dict_get k s' = dict_get k s) ∧
      dict_get key s' = (λ _, JStr "REDACTED") <$> dict_get key s
  | _, _ => False
  end.

Definition redaction_of (j j' : json) : Prop :=
  match j, j' with
  | JObj d, JObj d' =>
      d'.*1 = d.*1 ∧
      (∀ k, k ≠ "s3" → k ≠ "cookies" → dict_get k d' = dict_get k d) ∧
      section_redacted "secret" (dict_get "s3" d) (dict_get "s3" d') ∧
      section_redacted "logged-in-sig" (dict_get "cookies" d) (dict_get "cookies" d')
  | _, _ => False
  end.

Definition is_mapping (j : json) : Prop :=
  match j with JObj _ => True | _ => False end.

(** The session configuration of the specification's data model: a mapping
    whose [s3] and [cookies] entries, when present, are mappings. *)
Definition session_config (j : json) : Prop :=
  match j with
  | JObj d =>
      (∀ sec, dict_get "s3" d = Some sec → is_mapping sec) ∧
      (∀ sec, dict_get "cookies" d = Some sec → is_mapping sec)
  | _ => False
  end.

(** ** The cookies of a configuration in the store *)

(** The entries of the [cookies] sub-map; no entries when the configuration
    has no such section.  [None]: the configuration or the section is not a
    [dict]. *)
Definition cookies_of (h : gmap loc obj) (cfg : value)
  : option (list (string * value)) :=
  match cfg with
  | VRef c =>
      match h !! c with
      | Some (ODict d) =>
          match dict_get "cookies" d with
          | None => Some []
          | Some (VRef lc) =>
              match h !! lc with
              | Some (ODict dc) => Some dc
              | _ => None
              end
          | Some _ => None
          end
      | _ => None
      end
  | _ => None
  end.

(** A reference held by a live object is live. *)
Definition allocated (h : gmap loc obj) (v : value) : Prop :=
  match v with
  | VRef l => is_Some (h !! l)
  | _ => True
  end.

(** The store after one evaluation of [{}]. *)
Definition with_empty_dict (h : gmap loc obj) : gmap loc obj :=
  <[fresh (dom h) := ODict []]> h.

(** The message of lines 77-85 for a falsy [user] or [sig]. *)
Definition missing_cookie_message (user_ok sig_ok : bool) : message :=
  if negb user_ok && negb sig_ok then MsgCookiesBothMissing
  else if negb user_ok then MsgCookieUserMissing
  else MsgCookieSigMissing.

(** ** Answers of [whoami()] *)

(** What an answer says.  [Some (Some user)]: the success shape, a mapping
    with [success] the value [True] and the user name at [value.username].
    [Some None]: a mapping whose [success] is anything else (or is not
    there).  [None]: not an answer of the specified shape. *)
Definition whoami_verdict (h : gmap loc obj) (r : value) : option (option value) :=
  match r with
  | VRef l =>
      match h !! l with
      | Some (ODict d) =>
          match dict_get "success" d with
          | Some (VBool true) =>
              match dict_get "value" d with
              | Some (VRef lv) =>
                  match h !! lv with
                  | Some (ODict dv) =>
                      match dict_get "username" dv with
                      | Some user => Some (Some user)
                      | None => None
                      end
                  | _ => None
                  end
              | _ => None
              end
          | _ => Some None
          end
      | _ => None
      end
  | _ => None
  end.

(** ** Error messages and where they go *)

(** The error taxonomy of the specification. *)
Definition is_error_message (m : message) : bool :=
  match m with
  | MsgNetrcParseError | MsgNetrcNotFound
  | MsgCookiesBothMissing | MsgCookieUserMissing | MsgCookieSigMissing
  | MsgAuthenticationFailure _ | MsgCredentialsInvalid => true
  | _ => false
  end.

Definition errors_on_stderr (t : list event) : Prop :=
  ∀ s m, Print s m ∈ t → is_error_message m = true → s = Stderr.

(** What was written to one stream, in order. *)
Definition printed (s : stream) (t : list event) : list string :=
  omap (λ e, match e with
             | Print s' m =>
                 if stream_eqb s' s then Some (render m) else None
             | CallConfigure _ _ _ _ => None
             end) t.

(** ** A small logic of invariants

    [inv I m Q]: running [m] from a state that satisfies [I] ends, however
    it ends, in a state that satisfies [I]; a returned value satisfies
    [Q]. *)
Definition inv {A} (I : state → Prop) (m : M A) (Q : A → Prop) : Prop :=
  ∀ σ, I σ → I (m σ).2 ∧ ∀ a, (m σ).1 = Ret a → Q a.

(** The invariant "every object of the store [h0] is still there,
    unchanged". *)
Definition extends (h0 : gmap loc obj) (σ : state) : Prop := h0 ⊆ heap σ.

(** The invariant "every event of the trace satisfies [P]". *)
Definition trace_all (P : event → Prop) (σ : state) : Prop :=
  Forall P (trace σ).

(** Where a message belongs: the verdict of [--check] on [stdout], every
    other error message on [stderr]. *)
Definition on_its_stream (e : event) : Prop :=
  match e with
  | Print s MsgCredentialsInvalid => s = Stdout
  | Print s m => is_error_message m = true → s = Stderr
  | CallConfigure _ _ _ _ => True
  end.

(** [m] never falls through to the statement after it. *)
Definition never_returns {A} (m : M A) : Prop :=
  ∀ σ a, (m σ).1 ≠ Ret a.

(** ** An instance of the library functions, for the examples

    [json.dumps(_, indent=2)] as the [json] module's encoder produces it
    (item separator [","], key separator [": "], [ensure_ascii]); the
    characters of a string are read as the code points 0 to 255. *)

Definition backslash : string := String (ascii_of_nat 92) EmptyString.

Definition hex_digit (n : nat) : string :=
  String (ascii_of_nat (if (n <? 10)%nat then 48 + n else 87 + n)) EmptyString.

Definition escape_char (c : ascii) : string :=
  let n := nat_of_ascii c in
  if (n =? 34)%nat then backslash ++ dquote
  else if (n =? 92)%nat then backslash ++ backslash
  else if (n =? 8)%nat then backslash ++ "b"
  else if (n =? 12)%nat then backslash ++ "f"
  else if (n =? 10)%nat then backslash ++ "n"
  else if (n =? 13)%nat then backslash ++ "r"
  else if (n =? 9)%nat then backslash ++ "t"
  else if (n <? 32)%nat || (126 <? n)%nat then
    backslash ++ "u00" ++ hex_digit (n / 16) ++ hex_digit (n mod 16)
  else String c EmptyString.

Fixpoint escape_string (s : string) : string :=
  match s with
  | EmptyString => EmptyString
  | String c s' => escape_char c ++ escape_string s'
  end.

Definition encode_string (s : string) : string :=
  dquote ++ escape_string s ++ dquote.

(** [nl] is the line break followed by the indentation of the enclosing
    level. *)
Fixpoint encode (nl : string) (j : json) : string :=
  match j with
  | JNull => "null"
  | JBool true => "true"
  | JBool false => "false"
  | JInt z => NilZero.string_of_int (Z.to_int z)
  | JStr s => encode_string s
  | JArr xs =>
      match xs with
      | [] => "[]"
      | _ =>
          let nl' := nl ++ "  " in
          "[" ++ nl' ++
          (fix items (first : bool) (xs : list json) : string :=
             match xs with
             | [] => EmptyString
             | x :: xs' =>
                 (if first then EmptyString else "," ++ nl') ++
                 encode nl' x ++ items false xs'
             end) true xs ++
          nl ++ "]"
      end
  | JObj d =>
      match d with
      | [] => "{}"
      | _ =>
          let nl' := nl ++ "  " in
          "{" ++ nl' ++
          (fix items (first : bool) (d : list (string * json)) : string :=
             match d with
             | [] => EmptyString
             | (k, x) :: d' =>
                 (if first then EmptyString else "," ++ nl') ++
                 encode_string k ++ ": " ++ encode nl' x ++ items false d'
             end) true d ++
          nl ++ "}"
      end
  end.

Definition json_dumps_indent2 (j : json) : string := encode newline j.

(** None of the examples formats a container. *)
Definition repr_unused (h : gmap loc obj) (l : loc) : string := "<container>".

(** ** Example stores, sessions and worlds *)

(** [{"s3": {"access": "AK", "secret": "SK"},
      "cookies": {"logged-in-user": "alice", "logged-in-sig": "xyz"},
      "general": {"secure": true}}] *)
Definition example_heap : gmap loc obj :=
  <[0 := ODict [("s3", VRef 1); ("cookies", VRef 2); ("general", VRef 3)]]>
  (<[1 := ODict [("access", VStr "AK"); ("secret", VStr "SK")]]>
  (<[2 := ODict [("logged-in-user", VStr "alice"); ("logged-in-sig", VStr "xyz")]]>
  (<[3 := ODict [("secure", VBool true)]]> ∅))).

(** What [json.dumps] reads of it. *)
Definition example_json : json :=
  JObj [("s3", JObj [("access", JStr "AK"); ("secret", JStr "SK")]);
        ("cookies", JObj [("logged-in-user", JStr "alice");
                          ("logged-in-sig", JStr "xyz")]);
        ("general", JObj [("secure", JBool true)])].

(** The same with an empty [logged-in-user] cookie. *)
Definition empty_user_heap : gmap loc obj :=
  <[2 := ODict [("logged-in-user", VStr EmptyString); ("logged-in-sig", VStr "xyz")]]>
  example_heap.

(** Answers of [whoami()], kept in the store at 4 to 6. *)
Definition whoami_heap : gmap loc obj :=
  <[4 := ODict [("success", VBool true); ("value", VRef 5)]]>
  (<[5 := ODict [("username", VStr "alice")]]>
  (<[6 := ODict [("success", VBool false); ("error", VStr "invalid keys")]]>
  example_heap)).

Definition example_session (answer : reply value) : Session :=
  {| config := VRef 0;
     config_file := VStr "/home/alice/.config/internetarchive/ia.ini";
     host := VStr "archive.org";
     whoami := answer |}.

Definition no_flags : Args :=
  {| username := None; password := None; netrc := false; show := false;
     check := false; print_cookies := false;
     session := example_session (Raises (OtherError "ConnectionError")) |}.

Definition args_show : Args :=
  {| username := None; password := None; netrc := false; show := true;
     check := false; print_cookies := false;
     session := example_session (Raises (OtherError "ConnectionError")) |}.

Definition args_print_cookies : Args :=
  {| username := None; password := None; netrc := false; show := false;
     check := false; print_cookies := true;
     session := example_session (Raises (OtherError "ConnectionError")) |}.

Definition args_check (answer : value) : Args :=
  {| username := None; password := None; netrc := false; show := false;
     check := true; print_cookies := false;
     session := example_session (Returns answer) |}.

Definition args_netrc : Args :=
  {| username := None; password := None; netrc := true; show := false;
     check := false; print_cookies := false;
     session := example_session (Raises (OtherError "ConnectionError")) |}.

Definition args_bob : Args :=
  {| username := Some "bob"; password := Some "secret"; netrc := false;
     show := false; check := false; print_cookies := false;
     session := example_session (Raises (OtherError "ConnectionError")) |}.

(** A world whose [configure] succeeds and whose netrc file is as given. *)
Definition world_with (file : reply (gmap string netrc_entry)) : World :=
  {| netrc_netrc := file;
     configure := λ _ _ cf _,
       Returns (match cf with VStr path => path | _ => "ia.ini" end) |}.

(** A netrc file with one entry, for another host. *)
Definition other_host_only : gmap string netrc_entry :=
  {[ "example.com" := {| login := "bob"; account := None;
                         netrc_password := Some "secret" |} ]}.

Definition run (w : World) (args : Args) (h : gmap loc obj) : result unit * state :=
  main json_dumps_indent2 repr_unused w args (State h []).


(** ** Notions for the properties of the whole command *)

(** [m] prints nothing, calls no collaborator that is recorded, and does
    not leave by [sys.exit]: it returns or raises. *)
Definition quiet {A} (m : M A) : Prop :=
  ∀ σ, trace (m σ).2 = trace σ ∧ ∀ c, (m σ).1 ≠ Exit c.

(** Some message of the error taxonomy is among the events. *)
Definition error_printed (t : list event) : bool :=
  existsb (λ e, match e with
                | Print _ m => is_error_message m
                | CallConfigure _ _ _ _ => false
                end) t.

(** How a run may end, given the events [t] it added to the trace: exit 0
    after one [print] to stdout that is no error message; exit 1 right after
    the first and only error message; or, with no error message at all, a
    normal return or an exception that nothing caught. *)
Definition ends_well {A} (r : result A) (t : list event) : Prop :=
  match r with
  | Exit c =>
      (c = 0%Z ∧ ∃ m, t = [Print Stdout m] ∧ is_error_message m = false)
      ∨ (c = 1%Z ∧ ∃ t0 s m, t = (t0 ++ [Print s m])%list ∧
                             is_error_message m = true ∧ error_printed t0 = false)
  | Ret _ | Raise _ => error_printed t = false
  end.

(** A value that is not a container. *)
Definition scalar (v : value) : Prop :=
  match v with VRef _ => False | _ => True end.

(** A live value that has no [get] method: a scalar or a [list]. *)
Definition not_a_mapping (h : gmap loc obj) (v : value) : Prop :=
  match v with
  | VRef l => ∃ xs, h !! l = Some (OList xs)
  | _ => True
  end.

(** A netrc file with an entry for archive.org that has no password. *)
Definition archive_org_entry : gmap string netrc_entry :=
  {[ "archive.org" := {| login := "bob"; account := None;
                         netrc_password := None |} ]}.

(** A world whose [configure] raises [e], whatever it is called with. *)
Definition world_failing (e : exn) (file : reply (gmap string netrc_entry)) : World :=
  {| netrc_netrc := file; configure := λ _ _ _ _, Raises e |}.

(** [{"cookies": "none", "s3": "none"}]: two sections that are strings. *)
Definition flat_heap : gmap loc obj :=
  <[0 := ODict [("cookies", VStr "none"); ("s3", VStr "none")]]> ∅.

(** [{"general": {"secure": true}}]: no [cookies] section. *)
Definition no_cookies_heap : gmap loc obj :=
  <[0 := ODict [("general", VRef 3)]]> (<[3 := ODict [("secure", VBool true)]]> ∅).

(** An answer of [whoami()] that claims success and names nobody. *)
Definition nameless_heap : gmap loc obj :=
  <[4 := ODict [("success", VBool true)]]> example_heap.


(** The calls of [configure] among the events. *)
Definition configure_calls (t : list event) : list event :=
  omap (λ e, match e with CallConfigure _ _ _ _ => Some e | Print _ _ => None end) t.

(** The event is no call of [configure]. *)
Definition no_call (e : event) : Prop :=
  match e with Print _ _ => True | CallConfigure _ _ _ _ => False end.



(** ** [setup]: the options of the subcommand

    [setup] fills an [argparse] parser.  A parser is the list of its
    registered arguments, in the order of registration, with the number of
    its mutually exclusive groups and its own defaults. *)

Inductive arg_action := ActHelp | ActStore | ActStoreTrue.

Record argument := {
  option_strings : list string;
  arg_action_of : arg_action;
  arg_help : string;
  arg_group : option nat;
}.

(** What an attribute of the namespace holds. *)
Inductive ns_value :=
| NsNone
| NsBool (b : bool)
| NsStr (s : string)
| NsFunc (name : string).

Record Parser := {
  parser_name : string;
  parser_aliases : list string;
  parser_help : string;
  arguments : list argument;
  groups : nat;
  parser_defaults : list (string * ns_value);
}.

(** [subparsers.add_parser(name, aliases=..., help=...)]: a new parser, which
    has the [-h]/[--help] argument from the start. *)
Definition add_parser (name : string) (aliases : list string) (help : string)
  : Parser :=
  {| parser_name := name; parser_aliases := aliases; parser_help := help;
     arguments := [{| option_strings := ["-h"; "--help"];
                      arg_action_of := ActHelp;
                      arg_help := "show this help message and exit";
                      arg_group := None |}];
     groups := 0; parser_defaults := [] |}.

(** [parser.add_mutually_exclusive_group()]: the parser and the new group. *)
Definition add_mutually_exclusive_group (p : Parser) : Parser * nat :=
  ({| parser_name := parser_name p; parser_aliases := parser_aliases p;
      parser_help := parser_help p; arguments := arguments p;
      groups := S (groups p); parser_defaults := parser_defaults p |},
   groups p).

(** The argument that owns the option string [o], with its position. *)
Fixpoint find_option (o : string) (args : list argument) : option (nat * argument) :=
  match args with
  | [] => None
  | a :: args' =>
      if existsb (String.eqb o) (option_strings a) then Some (0, a)
      else prod_map S id <$> find_option o args'
  end.

(** [add_argument(opt, ..., action=..., help=...)] on the parser ([grp] is
    [None]) or on a group of it.  An option string that is already taken is
    an [ArgumentError]: [None]. *)
Definition add_argument (p : Parser) (grp : option nat) (opts : list string)
     (act : arg_action) (help : string) : option Parser :=
  if existsb (λ o, match find_option o (arguments p) with
                   | Some _ => true
                   | None => false
                   end) opts
  then None
  else Some {| parser_name := parser_name p; parser_aliases := parser_aliases p;
               parser_help := parser_help p;
               arguments := (arguments p ++
                             [{| option_strings := opts; arg_action_of := act;
                                 arg_help := help; arg_group := grp |}])%list;
               groups := groups p; parser_defaults := parser_defaults p |}.

(** [parser.set_defaults(k=v)] *)
Definition set_defaults (p : Parser) (k : string) (v : ns_value) : Parser :=
  {| parser_name := parser_name p; parser_aliases := parser_aliases p;
     parser_help := parser_help p; arguments := arguments p;
     groups := groups p; parser_defaults := dict_set k v (parser_defaults p) |}.

(** Lines 33-66.  [subparsers] is the list of the parsers of the other
    subcommands; the callable [main] is kept by name. *)
Definition setup (subparsers : list Parser) : option (list Parser) :=
  let parser :=
    add_parser "configure" ["co"]
      ("configure 'ia' with your " ++ "archive.org credentials") in
  let '(parser, config_action_group) := add_mutually_exclusive_group parser in
  parser ← add_argument parser None ["--username"; "-u"] ActStore
              ("provide username as an option rather than " ++
               "providing it interactively");
  parser ← add_argument parser None ["--password"; "-p"] ActStore
              ("provide password as an option rather than " ++
               "providing it interactively");
  parser ← add_argument parser None ["--netrc"; "-n"] ActStoreTrue
              "use netrc file for login";
  parser ← add_argument parser (Some config_action_group) ["--show"; "-s"]
              ActStoreTrue
              ("print the current configuration in JSON format, " ++
               "redacting secrets and cookies");
  parser ← add_argument parser (Some config_action_group) ["--check"; "-C"]
              ActStoreTrue
              "validate IA-S3 keys (exits 0 if valid, 1 otherwise)";
  parser ← add_argument parser None ["--print-cookies"; "-c"] ActStoreTrue
              "print archive.org logged-in-* cookies";
  Some (subparsers ++ [set_defaults parser "func" (NsFunc "main")])%list.

(** ** What [argparse] does with the parser

    The attribute of an argument: its first long option string, or its
    first option string, without the leading dashes and with every other
    dash turned into an underscore. *)

Definition dash : ascii := ascii_of_nat 45.
Definition underscore : ascii := ascii_of_nat 95.

Fixpoint lstrip_dashes (s : string) : string :=
  match s with
  | String c s' => if Ascii.eqb c dash then lstrip_dashes s' else s
  | EmptyString => EmptyString
  end.

Fixpoint dashes_to_underscores (s : string) : string :=
  match s with
  | String c s' =>
      String (if Ascii.eqb c dash then underscore else c) (dashes_to_underscores s')
  | EmptyString => EmptyString
  end.

Definition starts_with_dash (s : string) : bool :=
  match s with
  | String c _ => Ascii.eqb c dash
  | EmptyString => false
  end.

Definition is_long (o : string) : bool :=
  match o with
  | String _ (String c _) => Ascii.eqb c dash
  | _ => false
  end.

Definition dest (a : argument) : string :=
  let o := match List.find is_long (option_strings a) with
           | Some o => o
           | None => hd EmptyString (option_strings a)
           end in
  dashes_to_underscores (lstrip_dashes o).

(** The namespace before any option is read: the default of every argument
    ([None] for [store], [False] for [store_true], none for the help), then
    the defaults of the parser. *)
Definition initial_namespace (p : Parser) : list (string * ns_value) :=
  let with_defaults :=
    foldl (λ ns a,
             match arg_action_of a with
             | ActHelp => ns
             | ActStore => if dict_has (dest a) ns then ns
                           else dict_set (dest a) NsNone ns
             | ActStoreTrue => if dict_has (dest a) ns then ns
                               else dict_set (dest a) (NsBool false) ns
             end) [] (arguments p) in
  foldl (λ ns kv, if dict_has kv.1 ns then ns else dict_set kv.1 kv.2 ns)
        with_defaults (parser_defaults p).

(** How parsing a command line ends.  [Unmodelled]: the command line uses
    what this model leaves out (abbreviated options, [--opt=value], several
    short options in one token, a value that starts with a dash,
    positional arguments); nothing is said about it. *)
Inductive parse_result :=
| Parsed (ns : list (string * ns_value))
| ParserExit (status : Z)
| Unmodelled.

(** The argument at [i] is in a mutually exclusive group with an argument
    that was seen already. *)
Definition conflicts (p : Parser) (seen : list nat) (i : nat) (a : argument) : bool :=
  match arg_group a with
  | None => false
  | Some g =>
      existsb (λ j, negb (Nat.eqb i j) &&
                    match arguments p !! j with
                    | Some b => match arg_group b with
                                | Some g' => Nat.eqb g g'
                                | None => false
                                end
                    | None => false
                    end) seen
  end.

(** [argparse] reads a command line in two passes.  The first pass
    classifies every token, whatever comes before it: a token that starts
    with a dash must be an option; when it is no option string of the
    parser, [argparse] tries an abbreviation, [--opt=value] or a group of
    short options, and may end with an error there.  The model knows the
    tokens that need none of that: the option strings of the parser, and
    the tokens that do not start with a dash. *)
Definition recognised (p : Parser) (tok : string) : bool :=
  negb (starts_with_dash tok)
  || match find_option tok (arguments p) with
     | Some _ => true
     | None => false
     end.

(** The second pass, over tokens that are all [recognised]: the options
    from left to right, each [store] option followed by its value.  [-h]
    prints the help and exits 0 as soon as it is reached; a conflict in
    a mutually exclusive group and a [store] option without a value are
    errors, which exit with status 2. *)
Fixpoint consume (p : Parser) (seen : list nat) (ns : list (string * ns_value))
    (argv : list string) : parse_result :=
  match argv with
  | [] => Parsed ns
  | tok :: rest =>
      match find_option tok (arguments p) with
      | None => Unmodelled
      | Some (i, a) =>
          if conflicts p seen i a then ParserExit 2
          else
            match arg_action_of a with
            | ActHelp => ParserExit 0
            | ActStoreTrue =>
                consume p (i :: seen) (dict_set (dest a) (NsBool true) ns) rest
            | ActStore =>
                match rest with
                | [] => ParserExit 2
                | v :: rest' =>
                    if starts_with_dash v then Unmodelled
                    else consume p (i :: seen) (dict_set (dest a) (NsStr v) ns) rest'
                end
            end
      end
  end.

(** [parser.parse_args(argv)]: the two passes.  A command line with a token
    that the first pass does not know is [Unmodelled], also when an option
    before that token would end the second pass. *)
Definition parse_args (p : Parser) (argv : list string) : parse_result :=
  if forallb (recognised p) argv
  then consume p [] (initial_namespace p) argv
  else Unmodelled.

(** The attributes that [main] reads, taken from the namespace; [ia.py]
    adds the session.  [None]: an attribute is missing or of another type
    ([main] would raise). *)
Definition args_of_namespace (ns : list (string * ns_value)) (sess : Session)
  : option Args :=
  let text k := match dict_get k ns with
                | Some NsNone => Some None
                | Some (NsStr s) => Some (Some s)
                | _ => None
                end in
  let flag k := match dict_get k ns with
                | Some (NsBool b) => Some b
                | _ => None
                end in
  u ← text "username"; p ← text "password";
  n ← flag "netrc"; s ← flag "show"; c ← flag "check"; pc ← flag "print_cookies";
  Some {| username := u; password := p; netrc := n; show := s; check := c;
          print_cookies := pc; session := sess |}.

(** The parser that [setup] registers. *)
Definition configure_parser : option Parser :=
  ps ← setup []; last ps.

(** The namespace [ns] holds what [args] holds, and [main] as [func]. *)
Definition reads (ns : list (string * ns_value)) (args : Args) : Prop :=
  dict_get "username" ns
  = Some (match username args with Some s => NsStr s | None => NsNone end)
  ∧ dict_get "password" ns
    = Some (match password args with Some s => NsStr s | None => NsNone end)
  ∧ dict_get "netrc" ns = Some (NsBool (netrc args))
  ∧ dict_get "show" ns = Some (NsBool (show args))
  ∧ dict_get "check" ns = Some (NsBool (check args))
  ∧ dict_get "print_cookies" ns = Some (NsBool (print_cookies args))
  ∧ dict_get "func" ns = Some (NsFunc "main").

(** An option value that the model reads: it does not start with a dash. *)
Definition plain (v : option string) : Prop :=
  match v with
  | Some s => starts_with_dash s = false
  | None => True
  end.

(** A command line for given flags, with the long options. *)
Definition command_line (u p : option string) (n s c pc : bool) : list string :=
  (match u with Some x => ["--username"; x] | None => [] end ++
   match p with Some x => ["--password"; x] | None => [] end ++
   (if n then ["--netrc"] else []) ++
   (if s then ["--show"] else []) ++
   (if c then ["--check"] else []) ++
   (if pc then ["--print-cookies"] else []))%list.

(** The long option string of a short one. *)
Definition long_form (tok : string) : string :=
  if String.eqb tok "-u" then "--username"
  else if String.eqb tok "-p" then "--password"
  else if String.eqb tok "-n" then "--netrc"
  else if String.eqb tok "-s" then "--show"
  else if String.eqb tok "-C" then "--check"
  else if String.eqb tok "-c" then "--print-cookies"
  else if String.eqb tok "-h" then "--help"
  else tok.

(** * Properties *)

(** ** Running the monad *)

Lemma bind_Ret {A B} (m : M A) (f : A → M B) σ a σ' :
  m σ = (Ret a, σ') → bind m f σ = f a σ'.
Proof. unfold bind. by intros ->. Qed.

Lemma never_returns_bind_r {A B} (m : M A) (f : A → M B) :
  (∀ a, never_returns (f a)) → never_returns (bind m f).
Proof.
  intros Hf σ b. unfold bind. destruct (m σ) as [[a|c|e] σ']; try done. apply Hf.
Qed.

Lemma never_returns_sys_exit {A} c : never_returns (@sys_exit A c).
Proof. by intros σ a. Qed.

Lemma never_returns_if {A} (c : bool) (m1 m2 : M A) :
  never_returns m1 → never_returns m2 → never_returns (if c then m1 else m2).
Proof. by destruct c. Qed.

(** A branch that never returns absorbs the statements after it. *)
Lemma when_true_absorbs (m k : M unit) σ :
  never_returns m → bind (when true m) (λ _, k) σ = m σ.
Proof.
  intros Hm. unfold bind, when. specialize (Hm σ).
  destruct (m σ) as [[[]|c|e] σ']; simpl in *; [by destruct (Hm ())|done..].
Qed.

Lemma when_false_skips (m k : M unit) σ :
  bind (when false m) (λ _, k) σ = k σ.
Proof. done. Qed.

Lemma show_body_sections json_dumps args :
  show_body json_dumps args
  = (config <- py_copy (config (session args)) ;;
     redact_section config "s3" "secret" ;;
     redact_section config "cookies" "logged-in-sig" ;;
     text <- py_json_dumps json_dumps (VRef config) ;;
     print (MsgShowJson text) Stdout ;;
     sys_exit 0).
Proof. reflexivity. Qed.

Section Dispatch.

Variable json_dumps : json → string.
Variable py_repr : gmap loc obj → loc → string.
Variable w : World.

Lemma print_cookies_body_never_returns args :
  never_returns (print_cookies_body py_repr args).
Proof.
  unfold print_cookies_body.
  repeat (apply never_returns_bind_r; intros ?).
  apply never_returns_sys_exit.
Qed.

Lemma show_body_never_returns args :
  never_returns (show_body json_dumps args).
Proof.
  unfold show_body.
  repeat (apply never_returns_bind_r; intros ?).
  apply never_returns_sys_exit.
Qed.

Lemma check_body_never_returns args :
  never_returns (check_body py_repr args).
Proof.
  unfold check_body.
  repeat (apply never_returns_bind_r; intros ?).
  apply never_returns_if;
    repeat (apply never_returns_bind_r; intros ?); apply never_returns_sys_exit.
Qed.

(** [main] is the selected action and nothing else. *)
Lemma main_dispatch args σ :
  main json_dumps py_repr w args σ
  = run_action json_dumps py_repr w (select_action args) args σ.
Proof.
  unfold main, select_action.
  destruct (print_cookies args).
  { apply when_true_absorbs, print_cookies_body_never_returns. }
  rewrite when_false_skips. destruct (show args).
  { apply when_true_absorbs, show_body_never_returns. }
  rewrite when_false_skips. destruct (check args).
  { apply when_true_absorbs, check_body_never_returns. }
  by rewrite when_false_skips.
Qed.

End Dispatch.

(** ** Rules of the invariant logic *)

Section InvRules.

Context {I : state → Prop}.

Lemma inv_weaken {A} (m : M A) (Q Q' : A → Prop) :
  inv I m Q → (∀ a, Q a → Q' a) → inv I m Q'.
Proof. intros Hm HQ σ Hσ. destruct (Hm σ Hσ). split; eauto. Qed.

Lemma inv_ret {A} (a : A) (Q : A → Prop) : Q a → inv I (ret a) Q.
Proof. intros HQ σ Hσ. split; [done|]. intros a' [= <-]. done. Qed.

Lemma inv_raise {A} e (Q : A → Prop) : inv I (raise e) Q.
Proof. by intros σ Hσ. Qed.

Lemma inv_sys_exit {A} c (Q : A → Prop) : inv I (sys_exit c) Q.
Proof. by intros σ Hσ. Qed.

Lemma inv_bind {A B} (m : M A) (f : A → M B) (Q : A → Prop) (Q' : B → Prop) :
  inv I m Q → (∀ a, Q a → inv I (f a) Q') → inv I (bind m f) Q'.
Proof.
  intros Hm Hf σ Hσ. unfold bind. destruct (Hm σ Hσ) as [HI HQ].
  destruct (m σ) as [[a|c|e] σ']; simpl in *; try done.
  apply Hf; auto.
Qed.

Lemma inv_seq {A B} (m : M A) (f : A → M B) (Q' : B → Prop) :
  inv I m (λ _, True) → (∀ a, inv I (f a) Q') → inv I (bind m f) Q'.
Proof. intros Hm Hf. eapply inv_bind; eauto. Qed.

Lemma inv_when (c : bool) (m : M unit) (Q : unit → Prop) :
  Q () → inv I m Q → inv I (when c m) Q.
Proof. intros HQ Hm. destruct c; [done|]. by apply inv_ret. Qed.

Lemma inv_call {A} (r : reply A) : inv I (call r) (λ _, True).
Proof. destruct r; [by apply inv_ret|apply inv_raise]. Qed.

Lemma inv_get_heap : inv I get_heap (λ _, True).
Proof. by intros σ Hσ. Qed.

Lemma inv_deref l : inv I (deref l) (λ _, True).
Proof.
  unfold deref. apply inv_seq; [apply inv_get_heap|]. intros h.
  destruct (h !! l); [by apply inv_ret|apply inv_raise].
Qed.

Lemma inv_try_except {A} (body : M A) handler (Q : A → Prop) :
  inv I body Q → (∀ e h, handler e = Some h → inv I h Q) →
  inv I (try_except body handler) Q.
Proof.
  intros Hb Hh σ Hσ. unfold try_except. destruct (Hb σ Hσ) as [HI HQ].
  destruct (body σ) as [[a|c|e] σ']; simpl in *; try done.
  destruct (handler e) as [h|] eqn:Eh; [|done]. by apply (Hh e h).
Qed.

Lemma inv_py_contains k c : inv I (py_contains k c) (λ _, True).
Proof.
  unfold py_contains. apply inv_seq; [apply inv_deref|].
  intros []; by apply inv_ret.
Qed.

Lemma inv_py_getitem o k : inv I (py_getitem o k) (λ _, True).
Proof.
  unfold py_getitem. destruct o; try apply inv_raise.
  apply inv_seq; [apply inv_deref|]. intros [d|xs]; [|apply inv_raise].
  destruct (dict_get k d); [by apply inv_ret|apply inv_raise].
Qed.

Lemma inv_py_get o k dflt :
  inv I dflt (λ _, True) → inv I (py_get o k dflt) (λ _, True).
Proof.
  intros Hd. unfold py_get. destruct o; try apply inv_raise.
  apply inv_seq; [apply inv_deref|]. intros [d|xs]; [|apply inv_raise].
  apply inv_seq; [done|]. intros dv. by apply inv_ret.
Qed.

Lemma inv_py_json_dumps json_dumps v :
  inv I (py_json_dumps json_dumps v) (λ _, True).
Proof.
  unfold py_json_dumps. apply inv_seq; [apply inv_get_heap|]. intros h.
  destruct (to_json h v); [by apply inv_ret|apply inv_raise].
Qed.

End InvRules.

(** ** Invariants of the trace: the heap operations keep them *)

Section TraceInvariant.

Variable P : event → Prop.

Lemma trace_emit e : P e → inv (trace_all P) (emit e) (λ _, True).
Proof.
  intros He σ Hσ. split; [|done]. unfold trace_all in *. simpl.
  apply Forall_app. split; [done|]. by constructor.
Qed.

Lemma trace_print s m : P (Print s m) → inv (trace_all P) (print m s) (λ _, True).
Proof. apply trace_emit. Qed.

Lemma trace_alloc o : inv (trace_all P) (alloc o) (λ _, True).
Proof. by intros σ Hσ. Qed.

Lemma trace_store l o : inv (trace_all P) (store l o) (λ _, True).
Proof. by intros σ Hσ. Qed.

Lemma trace_py_copy o : inv (trace_all P) (py_copy o) (λ _, True).
Proof.
  unfold py_copy. destruct o; try apply inv_raise.
  apply inv_seq; [apply inv_deref|]. intros ob. apply trace_alloc.
Qed.

Lemma trace_py_setitem c k v : inv (trace_all P) (py_setitem c k v) (λ _, True).
Proof.
  unfold py_setitem. apply inv_seq; [apply inv_deref|].
  intros [d|xs]; [apply trace_store|apply inv_raise].
Qed.

Lemma trace_new_dict : inv (trace_all P) new_dict (λ _, True).
Proof.
  unfold new_dict. apply inv_seq; [apply trace_alloc|]. intros l. by apply inv_ret.
Qed.

Lemma trace_redact_section c section key :
  inv (trace_all P) (redact_section c section key) (λ _, True).
Proof.
  unfold redact_section. apply inv_seq; [apply inv_py_contains|]. intros present.
  apply inv_when; [done|].
  apply inv_seq; [apply inv_py_getitem|]. intros sec.
  apply inv_seq; [apply trace_py_copy|]. intros sec_config.
  apply inv_seq; [apply inv_py_contains|]. intros has_key.
  apply inv_seq; [apply inv_when; [done|apply trace_py_setitem]|]. intros _.
  apply trace_py_setitem.
Qed.

End TraceInvariant.

(** ** Where the messages go *)

Section Streams.

Variable json_dumps : json → string.
Variable py_repr : gmap loc obj → loc → string.
Variable w : World.
Variable P : event → Prop.

(** Decompose a computation along its binds; what is left are the events
    it emits. *)
Ltac trace_inv :=
  repeat first
    [ apply inv_sys_exit | apply inv_raise | apply inv_call
    | apply inv_get_heap | apply inv_py_contains | apply inv_py_getitem
    | apply inv_py_json_dumps | apply trace_new_dict
    | apply trace_redact_section | apply trace_py_copy
    | apply inv_py_get | apply inv_when; [done|]
    | apply inv_seq; [|intros ?]
    | apply inv_ret; done ].

Lemma trace_print_cookies_body args :
  P (Print Stderr MsgCookiesBothMissing) →
  P (Print Stderr MsgCookieUserMissing) →
  P (Print Stderr MsgCookieSigMissing) →
  (∀ u s, P (Print Stdout (MsgCookieLine u s))) →
  inv (trace_all P) (print_cookies_body py_repr args) (λ _, True).
Proof.
  intros H1 H2 H3 H4. unfold print_cookies_body. trace_inv.
  - repeat case_match; trace_inv; by apply trace_print.
  - by apply trace_print.
Qed.

Lemma trace_show_body args :
  (∀ text, P (Print Stdout (MsgShowJson text))) →
  inv (trace_all P) (show_body json_dumps args) (λ _, True).
Proof. intros H1. rewrite show_body_sections. trace_inv. by apply trace_print. Qed.

Lemma trace_check_body args :
  (∀ u, P (Print Stdout (MsgCredentialsValid u))) →
  P (Print Stdout MsgCredentialsInvalid) →
  inv (trace_all P) (check_body py_repr args) (λ _, True).
Proof.
  intros H1 H2. unfold check_body. trace_inv.
  case_match; trace_inv; by apply trace_print.
Qed.

Lemma trace_configure_body args :
  P (Print Stderr MsgNetrcBanner) →
  P (Print Stderr MsgNetrcParseError) →
  P (Print Stderr MsgNetrcNotFound) →
  P (Print Stdout MsgInteractiveBanner) →
  (∀ s text, P (Print s (MsgConfigSaved text))) →
  (∀ exc, P (Print Stderr (MsgAuthenticationFailure exc))) →
  (∀ u p cf hst, P (CallConfigure u p cf hst)) →
  inv (trace_all P) (configure_body w args) (λ _, True).
Proof.
  intros H1 H2 H3 H4 H5 H6 H7. unfold configure_body, call_configure.
  apply inv_try_except.
  - case_match; trace_inv; try (by apply trace_print); try (by apply trace_emit).
    + apply inv_try_except; [trace_inv|].
      intros e h Hh. destruct e; simplify_eq; trace_inv; by apply trace_print.
    + case_match; trace_inv.
  - intros e h Hh. destruct e; simplify_eq. trace_inv. by apply trace_print.
Qed.

End Streams.

(** ** The frame: what [main] does to the objects it was given *)

Section Frame.

Variable json_dumps : json → string.
Variable py_repr : gmap loc obj → loc → string.
Variable w : World.
Variable h0 : gmap loc obj.

Lemma frame_emit e : inv (extends h0) (emit e) (λ _, True).
Proof. by intros σ Hσ. Qed.

(** A new object lives at an address that [h0] does not use. *)
Lemma frame_alloc o : inv (extends h0) (alloc o) (λ l, l ∉ dom h0).
Proof.
  intros σ Hσ. unfold extends in *. simpl.
  pose proof (is_fresh (dom (heap σ))) as Hfresh.
  assert (fresh (dom (heap σ)) ∉ dom h0) as Hnew.
  { intros Hin. apply Hfresh. by apply (subseteq_dom h0 (heap σ)). }
  split.
  - apply insert_subseteq_r; [|done]. by apply not_elem_of_dom.
  - by intros a [= <-].
Qed.

(** Only objects outside [h0] may be written. *)
Lemma frame_store l o : l ∉ dom h0 → inv (extends h0) (store l o) (λ _, True).
Proof.
  intros Hl σ Hσ. split; [|done]. unfold extends in *. simpl.
  apply insert_subseteq_r; [|done]. by apply not_elem_of_dom.
Qed.

Lemma frame_py_copy o : inv (extends h0) (py_copy o) (λ c, c ∉ dom h0).
Proof.
  unfold py_copy. destruct o; try apply inv_raise.
  apply inv_seq; [apply inv_deref|]. intros ob. apply frame_alloc.
Qed.

Lemma frame_py_setitem c k v :
  c ∉ dom h0 → inv (extends h0) (py_setitem c k v) (λ _, True).
Proof.
  intros Hc. unfold py_setitem. apply inv_seq; [apply inv_deref|].
  intros [d|xs]; [by apply frame_store|apply inv_raise].
Qed.

Lemma frame_new_dict : inv (extends h0) new_dict (λ _, True).
Proof.
  unfold new_dict. apply inv_seq.
  - eapply inv_weaken; [apply frame_alloc|done].
  - intros l. by apply inv_ret.
Qed.

Lemma frame_redact_section c section key :
  c ∉ dom h0 → inv (extends h0) (redact_section c section key) (λ _, True).
Proof.
  intros Hc. unfold redact_section.
  apply inv_seq; [apply inv_py_contains|]. intros present.
  apply inv_when; [done|].
  apply inv_seq; [apply inv_py_getitem|]. intros sec.
  eapply inv_bind; [apply frame_py_copy|]. intros sec_config Hsec.
  apply inv_seq; [apply inv_py_contains|]. intros has_key.
  apply inv_seq; [apply inv_when; [done|by apply frame_py_setitem]|]. intros _.
  by apply frame_py_setitem.
Qed.

Ltac frame_inv :=
  repeat first
    [ apply inv_sys_exit | apply inv_raise | apply inv_call
    | apply inv_get_heap | apply inv_py_contains | apply inv_py_getitem
    | apply inv_py_json_dumps | apply frame_new_dict | apply frame_emit
    | apply inv_py_get | apply inv_when; [done|]
    | apply inv_seq; [|intros ?]
    | apply inv_ret; done ].

Lemma frame_print_cookies_body args :
  inv (extends h0) (print_cookies_body py_repr args) (λ _, True).
Proof.
  unfold print_cookies_body, print. frame_inv. repeat case_match; frame_inv.
Qed.

Lemma frame_show_body args :
  inv (extends h0) (show_body json_dumps args) (λ _, True).
Proof.
  rewrite show_body_sections. unfold print.
  eapply inv_bind; [apply frame_py_copy|]. intros c Hc.
  apply inv_seq; [by apply frame_redact_section|]. intros _.
  apply inv_seq; [by apply frame_redact_section|]. intros _.
  frame_inv.
Qed.

Lemma frame_check_body args :
  inv (extends h0) (check_body py_repr args) (λ _, True).
Proof. unfold check_body, print. frame_inv. case_match; frame_inv. Qed.

Lemma frame_configure_body args :
  inv (extends h0) (configure_body w args) (λ _, True).
Proof.
  unfold configure_body, call_configure, print. apply inv_try_except.
  - case_match; frame_inv.
    + apply inv_try_except; [frame_inv|].
      intros e h Hh. destruct e; simplify_eq; frame_inv.
    + case_match; frame_inv.
  - intros e h Hh. destruct e; simplify_eq. frame_inv.
Qed.

Lemma frame_main args :
  inv (extends h0) (main json_dumps py_repr w args) (λ _, True).
Proof.
  unfold main.
  apply inv_seq; [apply inv_when; [done|apply frame_print_cookies_body]|]. intros _.
  apply inv_seq; [apply inv_when; [done|apply frame_show_body]|]. intros _.
  apply inv_seq; [apply inv_when; [done|apply frame_check_body]|]. intros _.
  apply frame_configure_body.
Qed.

End Frame.

(** ** Dictionaries *)

Lemma dict_has_get {A} k (d : list (string * A)) :
  dict_has k d = true ↔ is_Some (dict_get k d).
Proof.
  unfold dict_has. destruct (dict_get k d); split; try done; by eauto.
Qed.

Lemma dict_get_set_eq {A} k (v : A) d : dict_get k (dict_set k v d) = Some v.
Proof.
  induction d as [|[k' v'] d IH]; simpl.
  - by rewrite String.eqb_refl.
  - destruct (String.eqb k k') eqn:E; simpl; rewrite E; [done|apply IH].
Qed.

Lemma dict_get_set_ne {A} k k' (v : A) d :
  k ≠ k' → dict_get k' (dict_set k v d) = dict_get k' d.
Proof.
  intros Hne. induction d as [|[k1 v1] d IH]; simpl.
  - destruct (String.eqb_spec k' k); [congruence|done].
  - destruct (String.eqb_spec k k1) as [->|]; simpl.
    + destruct (String.eqb_spec k' k1); [congruence|done].
    + by rewrite IH.
Qed.

Lemma dict_get_remove_eq {A} k (d : list (string * A)) :
  dict_get k (dict_remove k d) = None.
Proof.
  induction d as [|[k' v'] d IH]; simpl; [done|].
  destruct (String.eqb k k') eqn:E; simpl; [done|]. by rewrite E.
Qed.

Lemma dict_get_remove_ne {A} k k' (d : list (string * A)) :
  k ≠ k' → dict_get k' (dict_remove k d) = dict_get k' d.
Proof.
  intros Hne. induction d as [|[k1 v1] d IH]; simpl; [done|].
  destruct (String.eqb_spec k k1) as [->|]; simpl.
  - destruct (String.eqb_spec k' k1); [congruence|done].
  - by rewrite IH.
Qed.

(** [dict_set] keeps the keys of a Python dictionary distinct. *)
Lemma dict_set_NoDup {A} k (v : A) d :
  NoDup d.*1 → NoDup (dict_set k v d).*1.
Proof.
  induction d as [|[k1 v1] d IH]; simpl.
  - intros _. apply NoDup_singleton.
  - rewrite !NoDup_cons. intros [Hk1 Hd].
    destruct (String.eqb_spec k k1) as [->|Hne]; simpl; rewrite NoDup_cons.
    + done.
    + split; [|by apply IH]. intros Hin. apply Hk1.
      clear -Hin Hne. induction d as [|[k2 v2] d IH]; simpl in *.
      * apply list_elem_of_singleton in Hin. congruence.
      * destruct (String.eqb_spec k k2) as [->|]; simpl in *; [done|].
        apply elem_of_cons in Hin as [->|Hin]; [left|right; by apply IH].
Qed.

Section Aligned.

Context {A B : Type}.
Implicit Types (R : A → B → Prop) (d : list (string * A)) (js : list (string * B)).

Lemma aligned_get_Some R d js k a :
  aligned R d js → dict_get k d = Some a → ∃ b, dict_get k js = Some b ∧ R a b.
Proof.
  unfold aligned. induction 1 as [|[k1 a1] [k2 b2] d js [Hk HR] Hd IH]; simpl; [done|].
  simpl in Hk. subst k2. destruct (String.eqb k k1); [|done].
  intros [= ->]. eauto.
Qed.

Lemma aligned_get_None R d js k :
  aligned R d js → dict_get k d = None → dict_get k js = None.
Proof.
  unfold aligned. induction 1 as [|[k1 a1] [k2 b2] d js [Hk HR] Hd IH]; simpl; [done|].
  simpl in Hk. subst k2. by destruct (String.eqb k k1).
Qed.

Lemma aligned_get_Some_inv R d js k b :
  aligned R d js → dict_get k js = Some b → ∃ a, dict_get k d = Some a ∧ R a b.
Proof.
  unfold aligned. induction 1 as [|[k1 a1] [k2 b2] d js [Hk HR] Hd IH]; simpl; [done|].
  simpl in Hk. subst k2. destruct (String.eqb k k1); [|done].
  intros [= ->]. eauto.
Qed.

Lemma aligned_has R d js k : aligned R d js → dict_has k d = dict_has k js.
Proof.
  intros Hal. unfold dict_has. destruct (dict_get k d) as [a|] eqn:E.
  - destruct (aligned_get_Some _ _ _ _ _ Hal E) as (b & -> & _). done.
  - by rewrite (aligned_get_None _ _ _ _ Hal E).
Qed.

Lemma aligned_set R d js k a b :
  aligned R d js → R a b → aligned R (dict_set k a d) (dict_set k b js).
Proof.
  unfold aligned. intros Hal HR.
  induction Hal as [|[k1 a1] [k2 b2] d js [Hk HR1] Hd IH]; simpl.
  - by repeat constructor.
  - simpl in Hk. subst k2. destruct (String.eqb k k1); by constructor.
Qed.

Lemma aligned_impl R (R' : A → B → Prop) d js :
  aligned R d js → (∀ a b, R a b → R' a b) → aligned R' d js.
Proof.
  unfold aligned. intros Hal HR. eapply Forall2_impl; [done|].
  intros [] [] []. auto.
Qed.

End Aligned.

(** ** Reading the store as JSON *)

Lemma mapM_entries n h d js :
  mapM (λ kv : string * value, pair kv.1 <$> reify n h kv.2) d = Some js
  ↔ entries_json n h d js.
Proof.
  rewrite mapM_Some. unfold entries_json, aligned.
  split; intros Hal; (eapply Forall2_impl; [done|]); simpl; intros [k v] [k' j]; simpl.
  - intros (j' & Hr & [= -> ->])%fmap_Some. done.
  - intros [-> ->]. done.
Qed.

Lemma reify_dict n h l d :
  h !! l = Some (ODict d) →
  reify (S n) h (VRef l)
  = JObj <$> mapM (λ kv : string * value, pair kv.1 <$> reify n h kv.2) d.
Proof. simpl. by intros ->. Qed.

Lemma reify_dict_entries n h l d js :
  h !! l = Some (ODict d) → entries_json n h d js →
  reify (S n) h (VRef l) = Some (JObj js).
Proof.
  intros Hl Hd. rewrite (reify_dict _ _ _ _ Hl).
  apply mapM_entries in Hd. by rewrite Hd.
Qed.

Lemma reify_VStr n h s : reify n h (VStr s) = Some (JStr s).
Proof. by destruct n. Qed.

(** An object of the JSON tree comes from a dictionary of the store. *)
Lemma reify_JObj_inv n h v js :
  reify n h v = Some (JObj js) →
  ∃ n' l d, n = S n' ∧ v = VRef l ∧ h !! l = Some (ODict d) ∧ entries_json n' h d js.
Proof.
  destruct n as [|n']; destruct v as [|b|z|s|l]; simpl; try done.
  destruct (h !! l) as [[d|xs]|] eqn:Hl; [| |done].
  - intros (js' & Hm & [= ->])%fmap_Some. apply mapM_entries in Hm. eauto 10.
  - by intros (? & ? & ?)%fmap_Some.
Qed.

(** More fuel and more objects read the same tree. *)
Lemma reify_mono n h v j :
  reify n h v = Some j →
  ∀ n' h', (n ≤ n')%nat → h ⊆ h' → reify n' h' v = Some j.
Proof.
  revert v j. induction n as [|n IH]; intros v j Hr n' h' Hn Hh.
  - destruct v; simpl in *; try done; by destruct n'.
  - destruct v as [|b|z|s|l]; try (by destruct n'; simpl in *).
    destruct n' as [|n']; [lia|]. simpl in *.
    destruct (h !! l) as [o|] eqn:Hl; [|done].
    rewrite (lookup_weaken _ _ _ _ Hl Hh). destruct o as [d|xs].
    + apply fmap_Some in Hr as (js & Hm & ->).
      apply fmap_Some. exists js. split; [|done].
      apply mapM_Some. apply mapM_Some in Hm.
      eapply Forall2_impl; [done|]. simpl. intros [k v] y.
      intros (jv & Hv & ->)%fmap_Some. simpl in *.
      rewrite (IH _ _ Hv n' h') by (done || lia). done.
    + apply fmap_Some in Hr as (js & Hm & ->).
      apply fmap_Some. exists js. split; [|done].
      apply mapM_Some. apply mapM_Some in Hm.
      eapply Forall2_impl; [done|]. simpl. intros v y Hv.
      apply (IH _ _ Hv); [lia|done].
Qed.

Lemma entries_json_mono n h d js n' h' :
  entries_json n h d js → (n ≤ n')%nat → h ⊆ h' → entries_json n' h' d js.
Proof.
  intros Hal Hn Hh. eapply aligned_impl; [done|]. simpl.
  intros v j Hv. by apply (reify_mono _ _ _ _ Hv).
Qed.

(** *** The fuel of [to_json] is enough *)

Lemma reify_det n n' h v j j' :
  reify n h v = Some j → reify n' h v = Some j' → j = j'.
Proof.
  intros H1 H2.
  pose proof (reify_mono _ _ _ _ H1 (n `max` n') h (Nat.le_max_l _ _) (reflexivity _)) as H1'.
  pose proof (reify_mono _ _ _ _ H2 (n `max` n') h (Nat.le_max_r _ _) (reflexivity _)) as H2'.
  congruence.
Qed.

Lemma depth_entry (d : list (string * json)) kx :
  kx ∈ d → (depth kx.2 < depth (JObj d))%nat.
Proof.
  simpl. induction d as [|y d IH]; [by intros ?%elem_of_nil|].
  intros [->|Hin]%elem_of_cons; simpl; [lia|]. specialize (IH Hin). lia.
Qed.

Lemma depth_item (xs : list json) x :
  x ∈ xs → (depth x < depth (JArr xs))%nat.
Proof.
  simpl. induction xs as [|y xs IH]; [by intros ?%elem_of_nil|].
  intros [->|Hin]%elem_of_cons; simpl; [lia|]. specialize (IH Hin). lia.
Qed.

Lemma Forall2_impl_elem {A B} (P Q : A → B → Prop) l k :
  Forall2 P l k → (∀ x y, x ∈ l → y ∈ k → P x y → Q x y) → Forall2 Q l k.
Proof.
  induction 1 as [|x y l k HP Hlk IH]; intros HPQ; constructor.
  - apply HPQ; [left..|done].
  - apply IH. intros x' y' Hx Hy. apply HPQ; by right.
Qed.

(** A read that never comes back to [l] does not need [l]. *)
Lemma reify_delete n h l v j :
  reify n h v = Some j →
  (∀ m jl, reify m h (VRef l) = Some jl → (depth j < depth jl)%nat) →
  reify n (delete l h) v = Some j.
Proof.
  revert v j. induction n as [|n IH]; intros v j Hr Hl.
  - by destruct v.
  - destruct v as [|b|z|s|l']; try done.
    destruct (decide (l' = l)) as [->|Hne].
    { specialize (Hl _ _ Hr). lia. }
    simpl in *. rewrite lookup_delete_ne by done.
    destruct (h !! l') as [[d|xs]|] eqn:Hl'; [| |done].
    + apply fmap_Some in Hr as (js & Hm & ->).
      apply fmap_Some. exists js. split; [|done].
      apply mapM_Some. apply mapM_Some in Hm.
      eapply Forall2_impl_elem; [done|]. simpl.
      intros [k v] kj _ Hkj (jv & Hv & ->)%fmap_Some. simpl in *.
      rewrite (IH _ _ Hv); [done|].
      intros m jl Hjl. specialize (Hl _ _ Hjl).
      pose proof (depth_entry _ _ Hkj). simpl in *. lia.
    + apply fmap_Some in Hr as (js & Hm & ->).
      apply fmap_Some. exists js. split; [|done].
      apply mapM_Some. apply mapM_Some in Hm.
      eapply Forall2_impl_elem; [done|]. simpl.
      intros v jv _ Hjv Hv. apply (IH _ _ Hv).
      intros m jl Hjl. specialize (Hl _ _ Hjl).
      pose proof (depth_item _ _ Hjv). simpl in *. lia.
Qed.

(** As much fuel as the store has objects reads whatever any fuel reads. *)
Lemma reify_fuel n h v j :
  reify n h v = Some j → reify (size h) h v = Some j.
Proof.
  remember (size h) as sz eqn:Hsz. revert n h v j Hsz.
  induction sz as [|sz IH]; intros n h v j Hsz Hr.
  - destruct v as [|b|z|s|l]; try (by destruct n).
    symmetry in Hsz. apply map_size_empty_inv in Hsz as ->.
    destruct n; simpl in Hr; [done|]. by rewrite lookup_empty in Hr.
  - destruct v as [|b|z|s|l]; try (by destruct n).
    destruct n as [|n]; [done|]. simpl in *.
    destruct (h !! l) as [o|] eqn:Hl; [|done].
    assert (size (delete l h) = sz) as Hsz'.
    { erewrite map_size_delete_Some by done. lia. }
    assert (∀ v' j', reify n h v' = Some j' → (depth j' < depth j)%nat →
                     reify sz h v' = Some j') as Hchild.
    { intros v' j' Hv' Hd.
      apply (reify_mono sz (delete l h)); [|done|apply delete_subseteq].
      apply (IH n); [done|].
      apply reify_delete; [done|].
      intros m jl Hjl.
      assert (jl = j) as ->; [|done].
      apply (reify_det m (S n) h (VRef l)); [done|]. simpl. by rewrite Hl, Hr. }
    destruct o as [d|xs].
    + apply fmap_Some in Hr as (js & Hm & ->).
      apply fmap_Some. exists js. split; [|done].
      apply mapM_Some. apply mapM_Some in Hm.
      eapply Forall2_impl_elem; [done|]. simpl.
      intros [k v] kj _ Hkj (jv & Hv & ->)%fmap_Some. simpl in *.
      rewrite (Hchild _ _ Hv); [done|]. apply (depth_entry _ _ Hkj).
    + apply fmap_Some in Hr as (js & Hm & ->).
      apply fmap_Some. exists js. split; [|done].
      apply mapM_Some. apply mapM_Some in Hm.
      eapply Forall2_impl_elem; [done|]. simpl.
      intros v jv _ Hjv Hv. apply (Hchild _ _ Hv). apply (depth_item _ _ Hjv).
Qed.

(** [to_json] fails only on what no amount of fuel reads: a circular
    structure. *)
Lemma to_json_complete n h v j : reify n h v = Some j → to_json h v = Some j.
Proof.
  intros Hr. unfold to_json.
  apply (reify_mono (size h) h); [by apply (reify_fuel n)|lia|done].
Qed.


(** ** Running the operations on dictionaries of the store *)

Lemma deref_run σ l o : heap σ !! l = Some o → deref l σ = (Ret o, σ).
Proof. unfold deref, bind, get_heap. by intros ->. Qed.

Lemma py_contains_dict σ c d k :
  heap σ !! c = Some (ODict d) → py_contains k c σ = (Ret (dict_has k d), σ).
Proof. intros Hc. unfold py_contains. by rewrite (bind_Ret _ _ _ _ _ (deref_run _ _ _ Hc)). Qed.

Lemma py_getitem_dict σ l d k v :
  heap σ !! l = Some (ODict d) → dict_get k d = Some v →
  py_getitem (VRef l) k σ = (Ret v, σ).
Proof.
  intros Hl Hk. unfold py_getitem.
  rewrite (bind_Ret _ _ _ _ _ (deref_run _ _ _ Hl)). by rewrite Hk.
Qed.

Lemma py_get_dict σ l d k dflt :
  heap σ !! l = Some (ODict d) →
  py_get (VRef l) k dflt σ = bind dflt (λ dv, ret (default dv (dict_get k d))) σ.
Proof.
  intros Hl. unfold py_get. by rewrite (bind_Ret _ _ _ _ _ (deref_run _ _ _ Hl)).
Qed.

Lemma py_copy_run σ l o :
  heap σ !! l = Some o →
  py_copy (VRef l) σ
  = (Ret (fresh (dom (heap σ))),
     State (<[fresh (dom (heap σ)) := o]> (heap σ)) (trace σ)).
Proof.
  intros Hl. unfold py_copy. by rewrite (bind_Ret _ _ _ _ _ (deref_run _ _ _ Hl)).
Qed.

Lemma py_setitem_dict σ c d k v :
  heap σ !! c = Some (ODict d) →
  py_setitem c k v σ
  = (Ret (), State (<[c := ODict (dict_set k v d)]> (heap σ)) (trace σ)).
Proof.
  intros Hc. unfold py_setitem. by rewrite (bind_Ret _ _ _ _ _ (deref_run _ _ _ Hc)).
Qed.

Lemma fresh_lookup (h : gmap loc obj) : h !! fresh (dom h) = None.
Proof. apply not_elem_of_dom, is_fresh. Qed.

Lemma fresh_ne (h : gmap loc obj) l o : h !! l = Some o → fresh (dom h) ≠ l.
Proof. intros Hl Heq. rewrite <- Heq, fresh_lookup in Hl. done. Qed.

(** Lines 93-97 (and 99-103) when the configuration has no such section. *)
Lemma redact_section_absent σ c dc section key :
  heap σ !! c = Some (ODict dc) → dict_get section dc = None →
  redact_section c section key σ = (Ret (), σ).
Proof.
  intros Hc Hsec. unfold redact_section.
  rewrite (bind_Ret _ _ _ _ _ (py_contains_dict _ _ _ _ Hc)).
  unfold dict_has. by rewrite Hsec.
Qed.

(** The same when the section is a dictionary: the section is copied to a
    new address, the key is overwritten in the copy if it is there, and the
    configuration (the copy [c]) is made to point to the copy. *)
Lemma redact_section_present σ c dc section key l ds :
  heap σ !! c = Some (ODict dc) → dict_get section dc = Some (VRef l) →
  heap σ !! l = Some (ODict ds) →
  redact_section c section key σ
  = (Ret (),
     State (<[c := ODict (dict_set section (VRef (fresh (dom (heap σ)))) dc)]>
              (<[fresh (dom (heap σ)) :=
                   ODict (if dict_has key ds
                          then dict_set key (VStr "REDACTED") ds else ds)]>
                 (heap σ)))
           (trace σ)).
Proof.
  intros Hc Hsec Hl. unfold redact_section.
  rewrite (bind_Ret _ _ _ _ _ (py_contains_dict _ _ _ _ Hc)).
  unfold dict_has at 1. rewrite Hsec. unfold when at 1.
  rewrite (bind_Ret _ _ _ _ _ (py_getitem_dict _ _ _ _ _ Hc Hsec)).
  rewrite (bind_Ret _ _ _ _ _ (py_copy_run _ _ _ Hl)).
  set (l' := fresh (dom (heap σ))).
  assert (l' ≠ c) as Hne by apply (fresh_ne _ _ _ Hc).
  erewrite bind_Ret; [|apply py_contains_dict; simpl; apply lookup_insert_eq].
  destruct (dict_has key ds); unfold when.
  - erewrite bind_Ret; [|apply py_setitem_dict; simpl; apply lookup_insert_eq].
    erewrite py_setitem_dict; simpl.
    + by rewrite insert_insert_eq.
    + by rewrite !lookup_insert_ne.
  - erewrite bind_Ret; [|done].
    erewrite py_setitem_dict; simpl; [done|]. by rewrite lookup_insert_ne.
Qed.

(** One redaction step keeps the copy readable and redacts what it reads. *)
Lemma redact_section_reads c n js σ section key :
  copy_reads c n js σ →
  (∀ sec, dict_get section js = Some sec → is_mapping sec) →
  ∃ σ', redact_section c section key σ = (Ret (), σ') ∧
        trace σ' = trace σ ∧
        copy_reads c n (redact_in section key js) σ'.
Proof.
  intros (dc & Hc & Hdc & Hn) Hmap. unfold redact_in.
  destruct (dict_get section dc) as [v|] eqn:Hsec.
  2:{ exists σ. rewrite (redact_section_absent _ _ _ _ _ Hc Hsec).
      rewrite (aligned_get_None _ _ _ _ Hdc Hsec). split_and!; [done..|].
      by exists dc. }
  destruct (aligned_get_Some _ _ _ _ _ Hdc Hsec) as (jsec & Hjsec & Hv).
  rewrite Hjsec. specialize (Hmap _ Hjsec). destruct jsec as [| | | | |jd]; try done.
  apply reify_JObj_inv in Hv as (m & l & ds & -> & -> & Hl & Hds).
  apply lookup_delete_Some in Hl as [Hcl Hl].
  rewrite (redact_section_present _ _ _ _ _ _ _ Hc Hsec Hl).
  set (l' := fresh (dom (heap σ))).
  set (ds' := if dict_has key ds then dict_set key (VStr "REDACTED") ds else ds).
  assert (l' ≠ c) as Hne by apply (fresh_ne _ _ _ Hc).
  assert (∃ jd', redact_key key (JObj jd) = JObj jd' ∧
                 entries_json m (delete c (heap σ)) ds' jd') as (jd' & -> & Hds').
  { unfold redact_key, ds'. rewrite <- (aligned_has _ _ _ key Hds).
    destruct (dict_has key ds); eexists; (split; [done|]); [|done].
    apply aligned_set; [done|apply reify_VStr]. }
  eexists. split_and!; [done..|]. unfold copy_reads. simpl.
  exists (dict_set section (VRef l') dc). rewrite lookup_insert_eq.
  rewrite delete_insert_eq, delete_insert_ne by done.
  set (hd := delete c (heap σ)) in *.
  assert (hd ⊆ <[l' := ODict ds']> hd) as Hsub.
  { apply insert_subseteq. apply lookup_delete_None. right. apply fresh_lookup. }
  split_and!; [done| |].
  - apply aligned_set.
    + by apply (entries_json_mono _ _ _ _ _ _ Hdc).
    + apply (reify_dict_entries _ _ _ ds'); [apply lookup_insert_eq|].
      by apply (entries_json_mono _ _ _ _ _ _ Hds').
  - etrans; [done|]. by apply map_subseteq_size.
Qed.

Lemma copy_reads_to_json c n js σ :
  copy_reads c n js σ → to_json (heap σ) (VRef c) = Some (JObj js).
Proof.
  intros (dc & Hc & Hdc & Hn). unfold to_json.
  apply (reify_dict_entries _ _ _ dc); [done|].
  apply (entries_json_mono _ _ _ _ _ _ Hdc).
  - etrans; [done|]. apply map_subseteq_size, delete_subseteq.
  - apply delete_subseteq.
Qed.

(** [--show] on a session configuration: the redacted tree is printed. *)
Lemma show_body_run json_dumps args σ j :
  to_json (heap σ) (config (session args)) = Some j → session_config j →
  ∃ σ', show_body json_dumps args σ = (Exit 0, σ') ∧
        trace σ' = (trace σ ++ [Print Stdout (MsgShowJson (json_dumps (redacted j)))])%list.
Proof.
  intros Hj Hwf. destruct j as [| | | | |js]; try done. destruct Hwf as [Hs3 Hck].
  apply reify_JObj_inv in Hj as (n & c0 & d & [= <-] & Hcfg & Hc0 & Hd).
  rewrite show_body_sections, Hcfg.
  rewrite (bind_Ret _ _ _ _ _ (py_copy_run _ _ _ Hc0)).
  set (c := fresh (dom (heap σ))).
  set (σ1 := State (<[c := ODict d]> (heap σ)) (trace σ)).
  assert (copy_reads c (size (heap σ)) js σ1) as H1.
  { exists d. simpl. rewrite lookup_insert_eq, delete_insert_eq.
    rewrite delete_id by apply fresh_lookup. done. }
  destruct (redact_section_reads _ _ _ _ "s3" "secret" H1 Hs3) as (σ2 & Hr2 & Ht2 & H2).
  destruct (redact_section_reads _ _ _ _ "cookies" "logged-in-sig" H2) as (σ3 & Hr3 & Ht3 & H3).
  { intros sec. unfold redact_in. destruct (dict_get "s3" js); [|apply Hck].
    rewrite dict_get_set_ne by done. apply Hck. }
  cbv beta. rewrite (bind_Ret _ _ _ _ _ Hr2), (bind_Ret _ _ _ _ _ Hr3).
  erewrite bind_Ret.
  2:{ unfold py_json_dumps, get_heap, bind.
      by rewrite (copy_reads_to_json _ _ _ _ H3). }
  eexists. split; [done|]. simpl. by rewrite Ht3, Ht2.
Qed.

(** ** [--print-cookies] *)

Lemma with_empty_dict_extends h : h ⊆ with_empty_dict h.
Proof. apply insert_subseteq, fresh_lookup. Qed.

Lemma new_dict_run σ :
  new_dict σ = (Ret (VRef (fresh (dom (heap σ)))),
                State (with_empty_dict (heap σ)) (trace σ)).
Proof. done. Qed.

(** One evaluation of [config.get("cookies", {}).get(name)]. *)
Lemma get_cookie_run σ cfg dc name :
  cookies_of (heap σ) cfg = Some dc →
  bind (py_get cfg "cookies" new_dict) (λ cookies, py_get cookies name (ret VNone)) σ
  = (Ret (default VNone (dict_get name dc)),
     State (with_empty_dict (heap σ)) (trace σ)).
Proof.
  unfold cookies_of. intros Hck.
  destruct cfg as [|b|z|s|c]; try done.
  destruct (heap σ !! c) as [[d|xs]|] eqn:Hc; try done.
  rewrite (bind_Ret _ _ σ
             (default (VRef (fresh (dom (heap σ)))) (dict_get "cookies" d))
             (State (with_empty_dict (heap σ)) (trace σ))).
  2:{ rewrite (py_get_dict _ _ _ _ _ Hc). by rewrite (bind_Ret _ _ _ _ _ (new_dict_run σ)). }
  destruct (dict_get "cookies" d) as [[|b|z|s|lc]|] eqn:Hsec; simplify_eq; cbn [default id].
  - destruct (heap σ !! lc) as [[dc'|xs]|] eqn:Hlc; simplify_eq.
    erewrite py_get_dict; [done|]. cbn [heap].
    apply (lookup_weaken _ _ _ _ Hlc), with_empty_dict_extends.
  - erewrite py_get_dict; [done|]. cbn [heap]. apply lookup_insert_eq.
Qed.

Lemma print_cookies_body_run py_repr args σ dc :
  cookies_of (heap σ) (config (session args)) = Some dc →
  let user := default VNone (dict_get "logged-in-user" dc) in
  let sig := default VNone (dict_get "logged-in-sig" dc) in
  let h' := with_empty_dict (with_empty_dict (heap σ)) in
  print_cookies_body py_repr args σ
  = if truthy h' user && truthy h' sig
    then (Exit 0, State h' (trace σ ++ [Print Stdout
            (MsgCookieLine (py_str py_repr h' user) (py_str py_repr h' sig))]))
    else (Exit 1, State h' (trace σ ++ [Print Stderr
            (missing_cookie_message (truthy h' user) (truthy h' sig))])).
Proof.
  intros Hck user sig h'. unfold print_cookies_body.
  rewrite (bind_Ret _ _ _ _ _ (get_cookie_run _ _ _ "logged-in-user" Hck)).
  erewrite bind_Ret; [|apply (get_cookie_run _ _ dc "logged-in-sig")].
  2:{ simpl. unfold cookies_of in *.
      destruct (config (session args)) as [|b|z|s|c]; try done.
      destruct (heap σ !! c) as [[d|xs]|] eqn:Hc; try done.
      rewrite (lookup_weaken _ _ _ _ Hc (with_empty_dict_extends _)).
      destruct (dict_get "cookies" d) as [[|b|z|s|lc]|]; try done.
      destruct (heap σ !! lc) as [[dc'|xs]|] eqn:Hlc; try done.
      by rewrite (lookup_weaken _ _ _ _ Hlc (with_empty_dict_extends _)). }
  simpl. fold user sig h'. unfold bind at 1, get_heap. simpl.
  unfold missing_cookie_message.
  destruct (truthy h' user), (truthy h' sig); done.
Qed.

(** Allocation does not change what a live value is worth as a condition. *)
Lemma truthy_extend h h' v :
  allocated h v → h ⊆ h' → truthy h' v = truthy h v.
Proof.
  destruct v as [|b|z|s|l]; simpl; try done.
  intros [o Ho] Hsub. by rewrite Ho, (lookup_weaken _ _ _ _ Ho Hsub).
Qed.

Lemma truthy_with_empty_dicts h v :
  allocated h v →
  truthy (with_empty_dict (with_empty_dict h)) v = truthy h v.
Proof.
  intros Hv. apply truthy_extend; [done|].
  etrans; apply with_empty_dict_extends.
Qed.

(** ** [--check] *)

Lemma is_True_get (o : option value) :
  is_True (default VNone o) = true ↔ o = Some (VBool true).
Proof.
  destruct o as [[|[]|z|s|l]|]; simpl; split; try done.
Qed.

Lemma check_body_run py_repr args σ r verdict :
  whoami (session args) = Returns r →
  whoami_verdict (heap σ) r = Some verdict →
  check_body py_repr args σ
  = match verdict with
    | Some user =>
        (Exit 0, State (heap σ)
           (trace σ ++ [Print Stdout
                          (MsgCredentialsValid (py_str py_repr (heap σ) user))]))
    | None =>
        (Exit 1, State (heap σ) (trace σ ++ [Print Stdout MsgCredentialsInvalid]))
    end.
Proof.
  intros Hw Hv. unfold whoami_verdict in Hv.
  destruct r as [|b|z|s|l]; try done.
  destruct (heap σ !! l) as [[d|xs]|] eqn:Hl; try done.
  unfold check_body. rewrite Hw. simpl call.
  rewrite (bind_Ret _ _ σ (VRef l) σ) by done.
  erewrite bind_Ret; [|by rewrite (py_get_dict _ _ _ _ _ Hl)].
  destruct (is_True _) eqn:Ht.
  - apply is_True_get in Ht. rewrite Ht in Hv.
    destruct (dict_get "value" d) as [[|b|z|s|lv]|] eqn:Hval; try done.
    destruct (heap σ !! lv) as [[dv|xs]|] eqn:Hlv; try done.
    destruct (dict_get "username" dv) as [user|] eqn:Hu; try done.
    simplify_eq.
    erewrite bind_Ret; [done|].
    rewrite (bind_Ret _ _ _ _ _ (py_getitem_dict _ _ _ _ _ Hl Hval)).
    apply (py_getitem_dict _ _ _ _ _ Hlv Hu).
  - destruct (dict_get "success" d) as [[|[]|z|s|l']|]; by simplify_eq.
Qed.

(** ** The default action *)


(** [--netrc]: what happens up to the lookup of the host. *)
Lemma configure_body_netrc_not_found w args σ :
  netrc args = true → netrc_netrc w = Raises FileNotFoundError →
  configure_body w args σ
  = (Exit 1, State (heap σ)
       (trace σ ++ [Print Stderr MsgNetrcBanner; Print Stderr MsgNetrcNotFound])).
Proof.
  intros Hn Hw. unfold configure_body. rewrite Hn, Hw.
  unfold try_except, bind, print, emit, call, raise, sys_exit. simpl.
  by rewrite <- app_assoc.
Qed.

Lemma configure_body_netrc_parse_error w args σ :
  netrc args = true → netrc_netrc w = Raises NetrcParseError →
  configure_body w args σ
  = (Exit 1, State (heap σ)
       (trace σ ++ [Print Stderr MsgNetrcBanner; Print Stderr MsgNetrcParseError])).
Proof.
  intros Hn Hw. unfold configure_body. rewrite Hn, Hw.
  unfold try_except, bind, print, emit, call, raise, sys_exit. simpl.
  by rewrite <- app_assoc.
Qed.

Lemma configure_body_netrc_no_host w args σ hosts :
  netrc args = true → netrc_netrc w = Returns hosts →
  hosts !! "archive.org" = None →
  configure_body w args σ
  = (Raise (KeyError "archive.org"),
     State (heap σ) (trace σ ++ [Print Stderr MsgNetrcBanner])).
Proof.
  intros Hn Hw Hh. unfold configure_body. rewrite Hn, Hw.
  unfold try_except, bind, print, emit, call, raise, sys_exit, ret. simpl.
  by rewrite Hh.
Qed.


(** ** The redaction, field by field *)

Lemma dict_set_keys {A} k (v : A) d :
  is_Some (dict_get k d) → (dict_set k v d).*1 = d.*1.
Proof.
  induction d as [|[k1 v1] d IH]; simpl.
  - by intros [? ?].
  - destruct (String.eqb k k1); simpl; [done|]. intros H. f_equal. by apply IH.
Qed.

Lemma redact_key_spec key jd :
  section_redacted key (Some (JObj jd)) (Some (redact_key key (JObj jd))).
Proof.
  unfold redact_key, dict_has. simpl.
  destruct (dict_get key jd) as [old|] eqn:Hold; simpl.
  - split_and!.
    + apply dict_set_keys. by rewrite Hold.
    + intros k Hk. by apply dict_get_set_ne.
    + apply dict_get_set_eq.
  - rewrite Hold. done.
Qed.

Lemma redact_in_spec section key d :
  (∀ sec, dict_get section d = Some sec → is_mapping sec) →
  (redact_in section key d).*1 = d.*1 ∧
  (∀ k, k ≠ section → dict_get k (redact_in section key d) = dict_get k d) ∧
  section_redacted key (dict_get section d) (dict_get section (redact_in section key d)).
Proof.
  intros Hmap. unfold redact_in.
  destruct (dict_get section d) as [sec|] eqn:Hsec.
  - specialize (Hmap _ eq_refl). destruct sec as [| | | | |jd]; try done.
    split_and!.
    + apply dict_set_keys. by rewrite Hsec.
    + intros k Hk. by apply dict_get_set_ne.
    + rewrite dict_get_set_eq. apply redact_key_spec.
  - by rewrite Hsec.
Qed.

Lemma redacted_spec j : session_config j → redaction_of j (redacted j).
Proof.
  destruct j as [| | | | |d]; try done. intros [Hs3 Hck]. simpl.
  destruct (redact_in_spec "s3" "secret" d Hs3) as (Hk1 & Ho1 & Hr1).
  set (d1 := redact_in "s3" "secret" d) in *.
  assert (dict_get "cookies" d1 = dict_get "cookies" d) as Hc1 by by apply Ho1.
  destruct (redact_in_spec "cookies" "logged-in-sig" d1) as (Hk2 & Ho2 & Hr2).
  { rewrite Hc1. apply Hck. }
  split_and!.
  - by rewrite Hk2.
  - intros k H1 H2. rewrite Ho2, Ho1; done.
  - rewrite Ho2 by done. done.
  - by rewrite <- Hc1.
Qed.

(** ** A cookie that is there but empty *)

(** Overwriting an object does not move the next allocation. *)
Lemma with_empty_dict_insert (h : gmap loc obj) l o :
  is_Some (h !! l) → with_empty_dict (<[l := o]> h) = <[l := o]> (with_empty_dict h).
Proof.
  intros [o' Hl]. unfold with_empty_dict.
  rewrite dom_insert_lookup_L by eauto.
  apply insert_insert_ne. intros Heq. apply (fresh_ne _ _ _ Hl). done.
Qed.

Lemma with_empty_dict_is_Some (h : gmap loc obj) l :
  is_Some (h !! l) → is_Some (with_empty_dict h !! l).
Proof.
  intros [o Hl]. exists o. apply (lookup_weaken _ _ _ _ Hl), with_empty_dict_extends.
Qed.

Lemma truthy_false_extend h h' v :
  truthy h v = false → h ⊆ h' → truthy h' v = false.
Proof.
  intros Hv Hsub. destruct v as [|b|z|s|l]; simpl in *; try done.
  destruct (h !! l) as [o|] eqn:Hl; [|done].
  by rewrite (lookup_weaken _ _ _ _ Hl Hsub).
Qed.

(** Replacing a non-empty dictionary by a non-empty dictionary changes no
    condition. *)
Lemma truthy_insert (h : gmap loc obj) l d d' x :
  h !! l = Some (ODict d) → (x = VRef l → d ≠ [] ∧ d' ≠ []) →
  truthy (<[l := ODict d']> h) x = truthy h x.
Proof.
  intros Hl Hx. destruct x as [|b|z|s|l']; simpl; try done.
  destruct (decide (l' = l)) as [->|Hne].
  - rewrite lookup_insert_eq, Hl. destruct (Hx eq_refl) as [Hd Hd'].
    by destruct d, d'.
  - by rewrite lookup_insert_ne.
Qed.

Lemma dict_get_nonempty {A} k (d : list (string * A)) v :
  dict_get k d = Some v → d ≠ [].
Proof. by destruct d. Qed.

(** The run on a configuration whose cookie [name] is falsy, and the run on
    the configuration without that entry. *)
Lemma falsy_cookie_runs args h c d lc dc name other v :
  config (session args) = VRef c → h !! c = Some (ODict d) →
  dict_get "cookies" d = Some (VRef lc) → h !! lc = Some (ODict dc) →
  name ≠ "cookies" → name ≠ other →
  dict_get name dc = Some v → truthy h v = false →
  let h2 := with_empty_dict (with_empty_dict h) in
  let h_absent := <[lc := ODict (dict_remove name dc)]> h in
  let h2_absent := with_empty_dict (with_empty_dict h_absent) in
  cookies_of h (config (session args)) = Some dc
  ∧ cookies_of h_absent (config (session args)) = Some (dict_remove name dc)
  ∧ truthy h2 (default VNone (dict_get name dc)) = false
  ∧ truthy h2_absent (default VNone (dict_get name (dict_remove name dc))) = false
  ∧ truthy h2_absent (default VNone (dict_get other (dict_remove name dc)))
    = truthy h2 (default VNone (dict_get other dc)).
Proof.
  intros Hcfg Hc Hsec Hlc Hn1 Hn2 Hv Hfalse h2 h_absent h2_absent.
  assert (h ⊆ h2) as Hsub by (etrans; apply with_empty_dict_extends).
  split_and!.
  - unfold cookies_of. by rewrite Hcfg, Hc, Hsec, Hlc.
  - unfold cookies_of, h_absent. rewrite Hcfg.
    destruct (decide (c = lc)) as [->|Hne].
    + rewrite lookup_insert_eq. simplify_eq.
      rewrite dict_get_remove_ne by done. by rewrite Hsec, lookup_insert_eq.
    + rewrite lookup_insert_ne by done. by rewrite Hc, Hsec, lookup_insert_eq.
  - rewrite Hv. simpl. by apply (truthy_false_extend h).
  - by rewrite dict_get_remove_eq.
  - rewrite dict_get_remove_ne by done.
    unfold h2_absent, h_absent.
    rewrite !with_empty_dict_insert
      by (try apply with_empty_dict_is_Some; by rewrite Hlc).
    apply (truthy_insert _ _ dc).
    + by apply (lookup_weaken _ _ _ _ Hlc).
    + intros Hx. split; [by apply (dict_get_nonempty name _ v)|].
      destruct (dict_get other dc) as [x|] eqn:Hother; [|done].
      apply (dict_get_nonempty other _ x). by rewrite dict_get_remove_ne.
Qed.

(** ** Every message on its stream *)

Lemma trace_main json_dumps py_repr w args :
  inv (trace_all on_its_stream) (main json_dumps py_repr w args) (λ _, True).
Proof.
  unfold main.
  apply inv_seq; [apply inv_when; [done|]|intros _].
  { by apply trace_print_cookies_body. }
  apply inv_seq; [apply inv_when; [done|]|intros _].
  { by apply trace_show_body. }
  apply inv_seq; [apply inv_when; [done|]|intros _].
  { by apply trace_check_body. }
  by apply trace_configure_body.
Qed.

(** * The properties of the specification *)

Lemma main_default json_dumps py_repr w args σ :
  print_cookies args = false → show args = false → check args = false →
  main json_dumps py_repr w args σ = configure_body w args σ.
Proof.
  intros Hpc Hs Hc. rewrite main_dispatch. unfold select_action.
  by rewrite Hpc, Hs, Hc.
Qed.

Lemma main_print_cookies json_dumps py_repr w args σ :
  print_cookies args = true →
  main json_dumps py_repr w args σ = print_cookies_body py_repr args σ.
Proof.
  intros Hpc. rewrite main_dispatch. unfold select_action. by rewrite Hpc.
Qed.

Lemma main_show json_dumps py_repr w args σ :
  print_cookies args = false → show args = true →
  main json_dumps py_repr w args σ = show_body json_dumps args σ.
Proof.
  intros Hpc Hs. rewrite main_dispatch. unfold select_action. by rewrite Hpc, Hs.
Qed.

Lemma main_check json_dumps py_repr w args σ :
  print_cookies args = false → show args = false → check args = true →
  main json_dumps py_repr w args σ = check_body py_repr args σ.
Proof.
  intros Hpc Hs Hc. rewrite main_dispatch. unfold select_action.
  by rewrite Hpc, Hs, Hc.
Qed.

(** C9. For every combination of the flags, [main] runs exactly one of the
    four actions, the first whose flag is set in the order print_cookies,
    show, check, default: running [main] is running that action alone.  With
    [--print-cookies] set it is the print-cookies action whatever the other
    flags are, and [--netrc] has no part in the selection: with no action
    flag set the default action runs for either value of it. *)
Theorem main_runs_the_first_matching_action
    json_dumps py_repr w u p n s c pc sess σ :
  let args := {| username := u; password := p; netrc := n; show := s;
                 check := c; print_cookies := pc; session := sess |} in
  main json_dumps py_repr w args σ
  = run_action json_dumps py_repr w (select_action args) args σ
  ∧ select_action args
    = (if pc then ActPrintCookies else if s then ActShow
       else if c then ActCheck else ActConfigure)
  ∧ (let args := {| username := u; password := p; netrc := n; show := s;
                    check := c; print_cookies := true; session := sess |} in
     main json_dumps py_repr w args σ = print_cookies_body py_repr args σ)
  ∧ (let args := {| username := u; password := p; netrc := n; show := false;
                    check := false; print_cookies := false; session := sess |} in
     main json_dumps py_repr w args σ = configure_body w args σ)
  ∧ select_action {| username := u; password := p; netrc := negb n; show := s;
                     check := c; print_cookies := pc; session := sess |}
    = select_action args.
Proof.
  simpl. split_and!.
  - apply main_dispatch.
  - done.
  - by apply main_print_cookies.
  - by apply main_default.
  - done.
Qed.

(** C6. With [--netrc] (no action flag being set) and no netrc file, the
    command prints, after the banner of the netrc mode, exactly
    "error: .netrc file not found." to stderr, prints nothing to stdout, and
    exits with code 1. *)
Theorem netrc_file_not_found json_dumps py_repr w args h :
  print_cookies args = false → show args = false → check args = false →
  netrc args = true → netrc_netrc w = Raises FileNotFoundError →
  let r := main json_dumps py_repr w args (State h []) in
  r.1 = Exit 1
  ∧ printed Stderr (trace r.2)
    = ["Configuring 'ia' with netrc file..."; "error: .netrc file not found."]
  ∧ printed Stdout (trace r.2) = [].
Proof.
  intros Hpc Hs Hc Hn Hw r. unfold r.
  rewrite main_default by done.
  by rewrite configure_body_netrc_not_found.
Qed.

Lemma netrc_file_not_found_witness :
  let r := run (world_with (Raises FileNotFoundError)) args_netrc example_heap in
  r.1 = Exit 1
  ∧ printed Stderr (trace r.2)
    = ["Configuring 'ia' with netrc file..."; "error: .netrc file not found."]
  ∧ printed Stdout (trace r.2) = [].
Proof.
  apply (netrc_file_not_found json_dumps_indent2 repr_unused
           (world_with (Raises FileNotFoundError)) args_netrc example_heap);
    reflexivity.
Defined.

(** C5. A netrc file that parses but has no entry for archive.org: the
    lookup [n.hosts["archive.org"]] raises [KeyError], which the only
    handler around it ([except AuthenticationError]) does not catch.  The
    command leaves [main] by that exception after the banner: no error
    report of its own, no [sys.exit]. *)
Theorem netrc_without_archive_org_raises_KeyError :
  let r := run (world_with (Returns other_host_only)) args_netrc example_heap in
  other_host_only !! "archive.org" = None
  ∧ r.1 = Raise (KeyError "archive.org")
  ∧ printed Stderr (trace r.2) = ["Configuring 'ia' with netrc file..."]
  ∧ printed Stdout (trace r.2) = [].
Proof. vm_compute. done. Qed.




(** C4. With [--check] (no flag before it being set), for every answer of
    [session.whoami()]: when the answer reports success with a user name,
    the command prints [The credentials for "<user>" are valid] and exits
    0; when its [success] is anything but [True], the command prints the one
    invalid-credentials message and exits 1, whatever else the answer
    holds.  Both messages go to stdout. *)
Theorem check_reports_the_answer_of_whoami json_dumps py_repr w args h r verdict :
  print_cookies args = false → show args = false → check args = true →
  whoami (session args) = Returns r →
  whoami_verdict h r = Some verdict →
  let res := main json_dumps py_repr w args (State h []) in
  match verdict with
  | Some user =>
      res.1 = Exit 0
      ∧ printed Stdout (trace res.2)
        = ["The credentials for " ++ dquote ++ py_str py_repr h user
           ++ dquote ++ " are valid"]
      ∧ printed Stderr (trace res.2) = []
  | None =>
      res.1 = Exit 1
      ∧ printed Stdout (trace res.2)
        = ["Your credentials are invalid, check your configuration and try again"]
      ∧ printed Stderr (trace res.2) = []
  end.
Proof.
  intros Hpc Hs Hc Hw Hv res. unfold res.
  rewrite main_check by done.
  rewrite (check_body_run _ _ _ r verdict) by done.
  by destruct verdict.
Qed.

Lemma check_reports_the_answer_of_whoami_witness :
  (let res := run (world_with (Raises FileNotFoundError))
                  (args_check (VRef 4)) whoami_heap in
   res.1 = Exit 0
   ∧ printed Stdout (trace res.2)
     = ["The credentials for " ++ dquote ++ "alice" ++ dquote ++ " are valid"]
   ∧ printed Stderr (trace res.2) = [])
  ∧ (let res := run (world_with (Raises FileNotFoundError))
                    (args_check (VRef 6)) whoami_heap in
     res.1 = Exit 1
     ∧ printed Stdout (trace res.2)
       = ["Your credentials are invalid, check your configuration and try again"]
     ∧ printed Stderr (trace res.2) = []).
Proof.
  split.
  - apply (check_reports_the_answer_of_whoami json_dumps_indent2 repr_unused
             (world_with (Raises FileNotFoundError)) (args_check (VRef 4))
             whoami_heap (VRef 4) (Some (VStr "alice"))); reflexivity.
  - apply (check_reports_the_answer_of_whoami json_dumps_indent2 repr_unused
             (world_with (Raises FileNotFoundError)) (args_check (VRef 6))
             whoami_heap (VRef 6) None); reflexivity.
Defined.

(** C7, as the specification states it, fails: the invalid-credentials
    message of [--check] is an error message of the taxonomy and it is
    printed to stdout. *)
Lemma check_verdict_is_printed_to_stdout :
  ¬ errors_on_stderr
      (trace (run (world_with (Raises FileNotFoundError))
                  (args_check (VRef 6)) whoami_heap).2).
Proof.
  intros H. specialize (H Stdout MsgCredentialsInvalid).
  assert (Stdout = Stderr) as Heq; [|done].
  apply H; [|done]. vm_compute. apply list_elem_of_singleton. done.
Qed.

(** C7, amended.  In every run of the command, the netrc-parse-error,
    netrc-file-not-found, missing-cookie (all three) and
    authentication-failure messages are printed to stderr and never to
    stdout; the invalid-credentials message of [--check] is printed to
    stdout. *)
Theorem error_messages_and_their_streams json_dumps py_repr w args h s m :
  Print s m ∈ trace (main json_dumps py_repr w args (State h [])).2 →
  is_error_message m = true →
  s = match m with MsgCredentialsInvalid => Stdout | _ => Stderr end.
Proof.
  intros Hin Herr.
  destruct (trace_main json_dumps py_repr w args (State h [])) as [Hall _].
  { constructor. }
  unfold trace_all in Hall. rewrite Forall_forall in Hall.
  specialize (Hall _ Hin). destruct m; simpl in *; auto; done.
Qed.

Lemma error_messages_and_their_streams_witness :
  (Print Stderr MsgNetrcNotFound
     ∈ trace (run (world_with (Raises FileNotFoundError)) args_netrc example_heap).2
   ∧ is_error_message MsgNetrcNotFound = true
   ∧ Stderr = Stderr)
  ∧ (Print Stderr MsgCookieUserMissing
       ∈ trace (run (world_with (Raises FileNotFoundError))
                    args_print_cookies empty_user_heap).2
     ∧ is_error_message MsgCookieUserMissing = true
     ∧ Stderr = Stderr).
Proof.
  assert (Print Stderr MsgNetrcNotFound
            ∈ trace (run (world_with (Raises FileNotFoundError))
                         args_netrc example_heap).2) as H1.
  { vm_compute. repeat constructor. }
  assert (Print Stderr MsgCookieUserMissing
            ∈ trace (run (world_with (Raises FileNotFoundError))
                         args_print_cookies empty_user_heap).2) as H2.
  { vm_compute. repeat constructor. }
  split; (split; [done|split; [reflexivity|]]).
  - exact (error_messages_and_their_streams _ _ _ _ _ _ _ H1 eq_refl).
  - exact (error_messages_and_their_streams _ _ _ _ _ _ _ H2 eq_refl).
Defined.

(** C2. Running with [--show] leaves the session configuration as it was:
    every object that was in the store before the run (the configuration
    mapping, its [s3] and [cookies] sub-maps and everything below them) is
    there unchanged after it, however the run ends; so the configuration
    still reads as the same JSON tree. *)
Theorem show_leaves_the_session_config_unmodified json_dumps py_repr w args σ :
  show args = true →
  let σ' := (main json_dumps py_repr w args σ).2 in
  (∀ l o, heap σ !! l = Some o → heap σ' !! l = Some o)
  ∧ (∀ n j, reify n (heap σ) (config (session args)) = Some j →
            reify n (heap σ') (config (session args)) = Some j).
Proof.
  intros _ σ'.
  destruct (frame_main json_dumps py_repr w (heap σ) args σ) as [Hsub _];
    [unfold extends; reflexivity|].
  fold σ' in Hsub. unfold extends in Hsub. split.
  - intros l o Hl. by apply (lookup_weaken _ _ _ _ Hl).
  - intros n j Hj. by apply (reify_mono _ _ _ _ Hj).
Qed.

Lemma show_leaves_the_session_config_unmodified_witness :
  let σ' := (run (world_with (Raises FileNotFoundError)) args_show example_heap).2 in
  (∀ l o, example_heap !! l = Some o → heap σ' !! l = Some o)
  ∧ (∀ n j, reify n example_heap (VRef 0) = Some j →
            reify n (heap σ') (VRef 0) = Some j).
Proof.
  apply (show_leaves_the_session_config_unmodified json_dumps_indent2 repr_unused
           (world_with (Raises FileNotFoundError)) args_show
           (State example_heap [])).
  reflexivity.
Defined.

(** C3, as the specification states it, fails: with a [logged-in-user]
    entry that is there and empty, and a [logged-in-sig] entry, both entries
    are present, and the command exits 1 with the user-missing message. *)
Lemma present_but_empty_cookie_is_refused :
  let r := run (world_with (Raises FileNotFoundError))
               args_print_cookies empty_user_heap in
  cookies_of empty_user_heap (VRef 0)
  = Some [("logged-in-user", VStr EmptyString); ("logged-in-sig", VStr "xyz")]
  ∧ r.1 = Exit 1
  ∧ printed Stdout (trace r.2) = []
  ∧ printed Stderr (trace r.2)
    = ["error: 'logged-in-user' cookie not found in config file, try reconfiguring."].
Proof. vm_compute. done. Qed.

(** C3, amended.  With [--print-cookies], on a configuration whose
    [cookies] section is a mapping or is missing: the command prints
    [logged-in-user=<user>; logged-in-sig=<sig>] to stdout and exits 0
    exactly when both cookies are present with a true (non-empty) value;
    otherwise it prints nothing to stdout, exits 1, and prints to stderr the
    one of three messages that tells which of the two is missing or empty:
    both, the user, or the signature. *)
Theorem print_cookies_outcome json_dumps py_repr w args h dc :
  print_cookies args = true →
  cookies_of h (config (session args)) = Some dc →
  let user := default VNone (dict_get "logged-in-user" dc) in
  let sig := default VNone (dict_get "logged-in-sig" dc) in
  allocated h user → allocated h sig →
  let r := main json_dumps py_repr w args (State h []) in
  match truthy h user, truthy h sig with
  | true, true =>
      r.1 = Exit 0
      ∧ printed Stdout (trace r.2)
        = ["logged-in-user=" ++ py_str py_repr (heap r.2) user
           ++ "; logged-in-sig=" ++ py_str py_repr (heap r.2) sig]
      ∧ printed Stderr (trace r.2) = []
  | false, false =>
      r.1 = Exit 1
      ∧ printed Stdout (trace r.2) = []
      ∧ printed Stderr (trace r.2)
        = ["error: 'logged-in-user' and 'logged-in-sig' cookies not found in config file, try reconfiguring."]
  | false, true =>
      r.1 = Exit 1
      ∧ printed Stdout (trace r.2) = []
      ∧ printed Stderr (trace r.2)
        = ["error: 'logged-in-user' cookie not found in config file, try reconfiguring."]
  | true, false =>
      r.1 = Exit 1
      ∧ printed Stdout (trace r.2) = []
      ∧ printed Stderr (trace r.2)
        = ["error: 'logged-in-sig' cookie not found in config file, try reconfiguring."]
  end.
Proof.
  intros Hpc Hck user sig Hu Hs r. unfold r.
  rewrite main_print_cookies by done.
  rewrite (print_cookies_body_run _ _ _ dc) by done. fold user sig. cbn [heap].
  rewrite !truthy_with_empty_dicts by done.
  destruct (truthy h user), (truthy h sig); done.
Qed.

Lemma print_cookies_outcome_witness :
  (let r := run (world_with (Raises FileNotFoundError))
                args_print_cookies example_heap in
   r.1 = Exit 0
   ∧ printed Stdout (trace r.2) = ["logged-in-user=alice; logged-in-sig=xyz"]
   ∧ printed Stderr (trace r.2) = [])
  ∧ (let r := run (world_with (Raises FileNotFoundError))
                  args_print_cookies empty_user_heap in
     r.1 = Exit 1
     ∧ printed Stdout (trace r.2) = []
     ∧ printed Stderr (trace r.2)
       = ["error: 'logged-in-user' cookie not found in config file, try reconfiguring."]).
Proof.
  split.
  - apply (print_cookies_outcome json_dumps_indent2 repr_unused
             (world_with (Raises FileNotFoundError)) args_print_cookies example_heap
             [("logged-in-user", VStr "alice"); ("logged-in-sig", VStr "xyz")]);
      (reflexivity || exact I).
  - apply (print_cookies_outcome json_dumps_indent2 repr_unused
             (world_with (Raises FileNotFoundError)) args_print_cookies
             empty_user_heap
             [("logged-in-user", VStr EmptyString); ("logged-in-sig", VStr "xyz")]);
      (reflexivity || exact I).
Defined.

(** C10. With [--print-cookies], a cookie entry that is present and holds
    an empty string (or any other value that counts as false: [None],
    [False], [0], an empty container) is treated exactly as a missing
    entry: the run prints what the run on the configuration without that
    entry prints and ends as it ends, namely with nothing on stdout, exit
    code 1, and on stderr the one message that corresponds: the message
    that names this cookie alone when the other cookie holds a true value,
    and the message that names both cookies otherwise.  (The other cookie
    is judged in the store in which line 76 judges it, which the run leaves
    behind.) *)
Theorem falsy_cookie_is_treated_as_absent
    json_dumps py_repr w args h c d lc dc name v :
  print_cookies args = true →
  config (session args) = VRef c → h !! c = Some (ODict d) →
  dict_get "cookies" d = Some (VRef lc) → h !! lc = Some (ODict dc) →
  name = "logged-in-user" ∨ name = "logged-in-sig" →
  dict_get name dc = Some v → truthy h v = false →
  let r := main json_dumps py_repr w args (State h []) in
  let r_absent :=
    main json_dumps py_repr w args
      (State (<[lc := ODict (dict_remove name dc)]> h) []) in
  let is_user := String.eqb name "logged-in-user" in
  let other := if is_user then "logged-in-sig" else "logged-in-user" in
  let other_ok := truthy (heap r.2) (default VNone (dict_get other dc)) in
  r.1 = Exit 1
  ∧ printed Stdout (trace r.2) = []
  ∧ r_absent.1 = Exit 1
  ∧ trace r_absent.2 = trace r.2
  ∧ trace r.2
    = [Print Stderr
         (if other_ok
          then (if is_user then MsgCookieUserMissing else MsgCookieSigMissing)
          else MsgCookiesBothMissing)]
  ∧ printed Stderr (trace r.2)
    = [if other_ok
       then (if is_user
             then "error: 'logged-in-user' cookie not found in config file, try reconfiguring."
             else "error: 'logged-in-sig' cookie not found in config file, try reconfiguring.")
       else "error: 'logged-in-user' and 'logged-in-sig' cookies not found in config file, try reconfiguring."].
Proof.
  intros Hpc Hcfg Hc Hsec Hlc Hname Hv Hfalse r r_absent is_user other other_ok.
  unfold other_ok, other, is_user, r, r_absent.
  rewrite !main_print_cookies by done.
  destruct Hname as [-> | ->]; cbn [String.eqb Ascii.eqb Bool.eqb andb].
  - destruct (falsy_cookie_runs args h c d lc dc "logged-in-user" "logged-in-sig" v)
      as (Hck & Hck' & Hu & Hu' & Hs); try done.
    rewrite (print_cookies_body_run _ _ _ dc) by done.
    rewrite (print_cookies_body_run _ _ _ (dict_remove "logged-in-user" dc)) by done.
    cbn [heap trace]. rewrite Hu, Hu', Hs. cbn [andb app].
    unfold missing_cookie_message. simpl.
    by destruct (truthy (with_empty_dict (with_empty_dict h))
                   (default VNone (dict_get "logged-in-sig" dc))).
  - destruct (falsy_cookie_runs args h c d lc dc "logged-in-sig" "logged-in-user" v)
      as (Hck & Hck' & Hu & Hu' & Hs); try done.
    rewrite (print_cookies_body_run _ _ _ dc) by done.
    rewrite (print_cookies_body_run _ _ _ (dict_remove "logged-in-sig" dc)) by done.
    cbn [heap trace]. rewrite Hu, Hu', Hs. rewrite !andb_false_r. cbn [app].
    unfold missing_cookie_message. simpl.
    by destruct (truthy (with_empty_dict (with_empty_dict h))
                   (default VNone (dict_get "logged-in-user" dc))).
Qed.

Lemma falsy_cookie_is_treated_as_absent_witness :
  let r := run (world_with (Raises FileNotFoundError))
               args_print_cookies empty_user_heap in
  let r_absent :=
    run (world_with (Raises FileNotFoundError)) args_print_cookies
        (<[2 := ODict (dict_remove "logged-in-user"
                         [("logged-in-user", VStr EmptyString);
                          ("logged-in-sig", VStr "xyz")])]> empty_user_heap) in
  r.1 = Exit 1
  ∧ printed Stdout (trace r.2) = []
  ∧ r_absent.1 = Exit 1
  ∧ trace r_absent.2 = trace r.2
  ∧ trace r.2 = [Print Stderr MsgCookieUserMissing]
  ∧ printed Stderr (trace r.2)
    = ["error: 'logged-in-user' cookie not found in config file, try reconfiguring."].
Proof.
  apply (falsy_cookie_is_treated_as_absent json_dumps_indent2 repr_unused
           (world_with (Raises FileNotFoundError)) args_print_cookies
           empty_user_heap 0
           [("s3", VRef 1); ("cookies", VRef 2); ("general", VRef 3)] 2
           [("logged-in-user", VStr EmptyString); ("logged-in-sig", VStr "xyz")]
           "logged-in-user" (VStr EmptyString));
    first [reflexivity | left; reflexivity].
Defined.

(** C1. With [--show] (and no [--print-cookies] before it), on every
    session configuration (a mapping whose [s3] and [cookies] entries, when
    present, are mappings): the command prints to stdout the indented JSON
    of the redacted configuration and nothing else, and exits 0.  The tree
    that is serialized has the keys of the configuration in their order;
    [s3.secret], if present, and [cookies.logged-in-sig], if present, hold
    the string REDACTED; every other field is what it was. *)
Theorem show_prints_the_redacted_config json_dumps py_repr w args h n j :
  print_cookies args = false → show args = true →
  reify n h (config (session args)) = Some j → session_config j →
  let r := main json_dumps py_repr w args (State h []) in
  r.1 = Exit 0
  ∧ printed Stdout (trace r.2) = [json_dumps (redacted j)]
  ∧ printed Stderr (trace r.2) = []
  ∧ redaction_of j (redacted j).
Proof.
  intros Hpc Hs Hj%to_json_complete Hwf r. unfold r.
  rewrite main_show by done.
  destruct (show_body_run json_dumps args (State h []) j Hj Hwf) as (σ' & -> & Ht).
  simpl. rewrite Ht. split_and!; try done. by apply redacted_spec.
Qed.

Lemma show_prints_the_redacted_config_witness :
  let r := run (world_with (Raises FileNotFoundError)) args_show example_heap in
  r.1 = Exit 0
  ∧ printed Stdout (trace r.2) = [json_dumps_indent2 (redacted example_json)]
  ∧ printed Stderr (trace r.2) = []
  ∧ redaction_of example_json (redacted example_json).
Proof.
  apply (show_prints_the_redacted_config json_dumps_indent2 repr_unused
           (world_with (Raises FileNotFoundError)) args_show example_heap
           2 example_json); try reflexivity.
  split; intros sec; vm_compute; intros [= <-]; exact I.
Defined.

(** The stored secret is still there after [--show]. *)
Example secret_is_still_stored :
  heap (run (world_with (Raises FileNotFoundError)) args_show example_heap).2 !! 1
  = Some (ODict [("access", VStr "AK"); ("secret", VStr "SK")]).
Proof. vm_compute. reflexivity. Qed.

(** What the example prints: the two secrets are gone, the rest is there. *)
Example redacted_example :
  redacted example_json
  = JObj [("s3", JObj [("access", JStr "AK"); ("secret", JStr "REDACTED")]);
          ("cookies", JObj [("logged-in-user", JStr "alice");
                            ("logged-in-sig", JStr "REDACTED")]);
          ("general", JObj [("secure", JBool true)])].
Proof. reflexivity. Qed.


(** * Further properties of [main] *)

Lemma bind_Raise {A B} (m : M A) (f : A → M B) σ e σ' :
  m σ = (Raise e, σ') → bind m f σ = (Raise e, σ').
Proof. unfold bind. by intros ->. Qed.

(** ** Operations that print nothing *)

Lemma quiet_ret {A} (a : A) : quiet (ret a).
Proof. by intros σ. Qed.

Lemma quiet_raise {A} e : quiet (@raise A e).
Proof. by intros σ. Qed.

Lemma quiet_get_heap : quiet get_heap.
Proof. by intros σ. Qed.

Lemma quiet_alloc o : quiet (alloc o).
Proof. by intros σ. Qed.

Lemma quiet_store l o : quiet (store l o).
Proof. by intros σ. Qed.

Lemma quiet_call {A} (r : reply A) : quiet (call r).
Proof. destruct r; [apply quiet_ret|apply quiet_raise]. Qed.

Lemma quiet_bind {A B} (m : M A) (f : A → M B) :
  quiet m → (∀ a, quiet (f a)) → quiet (bind m f).
Proof.
  intros Hm Hf σ. unfold bind. destruct (Hm σ) as [Ht Hx].
  destruct (m σ) as [[a|c|e] σ']; simpl in *.
  - destruct (Hf a σ') as [Ht' Hx']. split; [congruence|done].
  - by destruct (Hx c).
  - done.
Qed.

Lemma quiet_when c (m : M unit) : quiet m → quiet (when c m).
Proof. destruct c; [done|]. intros _. apply quiet_ret. Qed.

Lemma quiet_deref l : quiet (deref l).
Proof.
  unfold deref. apply quiet_bind; [apply quiet_get_heap|]. intros h.
  destruct (h !! l); [apply quiet_ret|apply quiet_raise].
Qed.

Lemma quiet_new_dict : quiet new_dict.
Proof.
  unfold new_dict. apply quiet_bind; [apply quiet_alloc|]. intros l. apply quiet_ret.
Qed.

Lemma quiet_py_get o k dflt : quiet dflt → quiet (py_get o k dflt).
Proof.
  intros Hd. unfold py_get. destruct o; try apply quiet_raise.
  apply quiet_bind; [apply quiet_deref|]. intros [d|xs]; [|apply quiet_raise].
  apply quiet_bind; [done|]. intros dv. apply quiet_ret.
Qed.

Lemma quiet_py_copy o : quiet (py_copy o).
Proof.
  unfold py_copy. destruct o; try apply quiet_raise.
  apply quiet_bind; [apply quiet_deref|]. intros ob. apply quiet_alloc.
Qed.

Lemma quiet_py_contains k c : quiet (py_contains k c).
Proof.
  unfold py_contains. apply quiet_bind; [apply quiet_deref|].
  intros []; apply quiet_ret.
Qed.

Lemma quiet_py_getitem o k : quiet (py_getitem o k).
Proof.
  unfold py_getitem. destruct o; try apply quiet_raise.
  apply quiet_bind; [apply quiet_deref|]. intros [d|xs]; [|apply quiet_raise].
  destruct (dict_get k d); [apply quiet_ret|apply quiet_raise].
Qed.

Lemma quiet_py_setitem c k v : quiet (py_setitem c k v).
Proof.
  unfold py_setitem. apply quiet_bind; [apply quiet_deref|].
  intros [d|xs]; [apply quiet_store|apply quiet_raise].
Qed.

Lemma quiet_py_json_dumps json_dumps v : quiet (py_json_dumps json_dumps v).
Proof.
  unfold py_json_dumps. apply quiet_bind; [apply quiet_get_heap|]. intros h.
  destruct (to_json h v); [apply quiet_ret|apply quiet_raise].
Qed.

Lemma quiet_redact_section c section key : quiet (redact_section c section key).
Proof.
  unfold redact_section. apply quiet_bind; [apply quiet_py_contains|]. intros present.
  apply quiet_when.
  apply quiet_bind; [apply quiet_py_getitem|]. intros sec.
  apply quiet_bind; [apply quiet_py_copy|]. intros sec_config.
  apply quiet_bind; [apply quiet_py_contains|]. intros has_key.
  apply quiet_bind; [apply quiet_when, quiet_py_setitem|]. intros _.
  apply quiet_py_setitem.
Qed.

(** After a quiet statement, either the rest runs on the same trace or an
    exception has left with the trace as it was. *)
Lemma quiet_then {A B} (m : M A) (f : A → M B) σ :
  quiet m →
  (∃ a σ', trace σ' = trace σ ∧ bind m f σ = f a σ')
  ∨ (∃ e σ', trace σ' = trace σ ∧ bind m f σ = (Raise e, σ')).
Proof.
  intros Hm. unfold bind. destruct (Hm σ) as [Ht Hx].
  destruct (m σ) as [[a|c|e] σ']; simpl in *.
  - left. eauto.
  - by destruct (Hx c).
  - right. eauto.
Qed.

(** ** How each action ends *)

(** Run the quiet statement at the head of the goal; [tac] proves that it is
    quiet. *)
Ltac quiet_step tac :=
  match goal with
  | |- context [bind ?m ?f ?σ] =>
      let Ht := fresh "Ht" in
      destruct (quiet_then m f σ) as [(? & ? & Ht & ->)|(? & ? & Ht & ->)];
      [tac| |]
  end.

Ltac trace_back :=
  repeat match goal with
         | H : trace ?s = _ |- context [trace ?s] => rewrite H
         end.

Ltac raised := exists []; simpl; trace_back; by rewrite app_nil_r.

Lemma print_cookies_body_ends py_repr args σ :
  ∃ t, trace (print_cookies_body py_repr args σ).2 = (trace σ ++ t)%list
       ∧ ends_well (print_cookies_body py_repr args σ).1 t.
Proof.
  unfold print_cookies_body.
  quiet_step ltac:(apply quiet_bind; [apply quiet_py_get, quiet_new_dict|];
                   intros ?; apply quiet_py_get, quiet_ret); [|raised].
  quiet_step ltac:(apply quiet_bind; [apply quiet_py_get, quiet_new_dict|];
                   intros ?; apply quiet_py_get, quiet_ret); [|raised].
  unfold bind, get_heap, when, print, emit, sys_exit, ret. simpl. trace_back.
  repeat match goal with |- context [truthy ?h ?v] => destruct (truthy h v) end;
    simpl; trace_back; eexists; (split; [done|]); simpl.
  - left. eauto.
  - right. split; [done|]. by exists [], Stderr, MsgCookieSigMissing.
  - right. split; [done|]. by exists [], Stderr, MsgCookieUserMissing.
  - right. split; [done|]. by exists [], Stderr, MsgCookiesBothMissing.
Qed.

Lemma show_body_ends json_dumps args σ :
  ∃ t, trace (show_body json_dumps args σ).2 = (trace σ ++ t)%list
       ∧ ends_well (show_body json_dumps args σ).1 t.
Proof.
  rewrite show_body_sections.
  quiet_step ltac:(apply quiet_py_copy); [|raised].
  quiet_step ltac:(apply quiet_redact_section); [|raised].
  quiet_step ltac:(apply quiet_redact_section); [|raised].
  quiet_step ltac:(apply quiet_py_json_dumps); [|raised].
  unfold bind, print, emit, sys_exit. simpl. trace_back.
  eexists. split; [done|]. left. eauto.
Qed.

Lemma check_body_ends py_repr args σ :
  ∃ t, trace (check_body py_repr args σ).2 = (trace σ ++ t)%list
       ∧ ends_well (check_body py_repr args σ).1 t.
Proof.
  unfold check_body.
  quiet_step ltac:(apply quiet_call); [|raised].
  quiet_step ltac:(apply quiet_py_get, quiet_ret); [|raised].
  match goal with |- context [is_True ?v] => destruct (is_True v) end.
  - quiet_step ltac:(apply quiet_bind; [apply quiet_py_getitem|];
                     intros ?; apply quiet_py_getitem); [|raised].
    unfold bind, get_heap, print, emit, sys_exit. simpl. trace_back.
    eexists. split; [done|]. left. eauto.
  - unfold bind, print, emit, sys_exit. simpl. trace_back.
    eexists. split; [done|]. right. split; [done|].
    by exists [], Stdout, MsgCredentialsInvalid.
Qed.

Lemma configure_body_ends w args σ :
  ∃ t, trace (configure_body w args σ).2 = (trace σ ++ t)%list
       ∧ ends_well (configure_body w args σ).1 t.
Proof.
  unfold configure_body, call_configure, try_except, bind, when, print, emit,
    call, raise, sys_exit, ret.
  destruct (netrc args); simpl.
  - destruct (netrc_netrc w) as [hosts|e]; simpl.
    + destruct (hosts !! "archive.org") as [entry|]; simpl.
      * destruct (configure w _ _ _ _) as [path|e]; simpl.
        -- rewrite <- !app_assoc. eexists. split; [done|]. done.
        -- destruct e; simpl; rewrite <- !app_assoc; eexists; (split; [done|]);
             try done.
           right. split; [done|]. eexists [_; _], Stderr, _. done.
      * eexists. split; [done|]. done.
    + destruct e; simpl; try rewrite <- !app_assoc; eexists; (split; [done|]);
        try done; right; (split; [done|]); eexists [_], Stderr, _; done.
  - destruct (negb (given (username args) && given (password args))); simpl.
    + destruct (configure w _ _ _ _) as [path|e]; simpl.
      * rewrite <- !app_assoc. eexists. split; [done|]. done.
      * destruct e; simpl; rewrite <- !app_assoc; eexists; (split; [done|]);
          try done.
        right. split; [done|]. eexists [_; _], Stderr, _. done.
    + destruct (configure w _ _ _ _) as [path|e]; simpl.
      * rewrite <- !app_assoc. eexists. split; [done|]. done.
      * destruct e; simpl; try rewrite <- !app_assoc; eexists; (split; [done|]);
          try done.
        right. split; [done|]. eexists [_], Stderr, _. done.
Qed.

Lemma main_ends json_dumps py_repr w args σ :
  ∃ t, trace (main json_dumps py_repr w args σ).2 = (trace σ ++ t)%list
       ∧ ends_well (main json_dumps py_repr w args σ).1 t.
Proof.
  rewrite main_dispatch. unfold run_action, select_action.
  destruct (print_cookies args); [apply print_cookies_body_ends|].
  destruct (show args); [apply show_body_ends|].
  destruct (check args); [apply check_body_ends|apply configure_body_ends].
Qed.


(** ** What the exit status tells *)

Lemma error_printed_app t1 t2 :
  error_printed (t1 ++ t2) = error_printed t1 || error_printed t2.
Proof. unfold error_printed. apply existsb_app. Qed.

Lemma printed_app s t1 t2 :
  printed s (t1 ++ t2) = (printed s t1 ++ printed s t2)%list.
Proof. unfold printed. apply omap_app. Qed.

(** X1. Whatever the flags, the configuration and the collaborators do:
    when [main] leaves by [sys.exit] the code is 0 or 1, and it is 1 exactly
    when an error message (one of the seven of the taxonomy) was printed,
    which is then the last event of the run. *)
Theorem exit_code_1_means_an_error_was_printed json_dumps py_repr w args h :
  let r := main json_dumps py_repr w args (State h []) in
  (∀ c, r.1 = Exit c → c = 0%Z ∨ c = 1%Z)
  ∧ (error_printed (trace r.2) = true ↔ r.1 = Exit 1)
  ∧ (r.1 = Exit 1 →
     ∃ t0 s m, trace r.2 = (t0 ++ [Print s m])%list ∧ is_error_message m = true
               ∧ error_printed t0 = false).
Proof.
  intros r. unfold r.
  destruct (main_ends json_dumps py_repr w args (State h [])) as (t & Ht & Hend).
  simpl in Ht. rewrite Ht.
  destruct (main json_dumps py_repr w args (State h [])).1 as [[]|c|e]; simpl in Hend.
  - split_and!; try (intros; discriminate). rewrite Hend. by split.
  - destruct Hend as [[-> (m & -> & Hm)]|[-> (t0 & s & m & -> & Hm & Ht0)]].
    + split_and!; [intros ? [= <-]; by left| |intros; discriminate].
      simpl. rewrite Hm. by split.
    + split_and!; [intros ? [= <-]; by right| |by eauto 10].
      rewrite error_printed_app. simpl. rewrite Hm. by rewrite orb_true_r.
  - split_and!; try (intros; discriminate). rewrite Hend. by split.
Qed.

(** X2. Whatever the flags, the configuration and the collaborators do:
    when [main] leaves by [sys.exit] with code 0 (a normal return of the
    default action is no such exit), the whole run is one call of [print],
    with stdout as its stream and a text that is none of the error
    messages; so nothing went to stderr and [configure] was not called.
    The text of that one call may span several lines, as the JSON of
    [--show] does. *)
Theorem sys_exit_0_means_one_print_to_stdout json_dumps py_repr w args h :
  let r := main json_dumps py_repr w args (State h []) in
  r.1 = Exit 0 →
  (∃ m, trace r.2 = [Print Stdout m] ∧ is_error_message m = false)
  ∧ length (printed Stdout (trace r.2)) = 1
  ∧ printed Stderr (trace r.2) = []
  ∧ configure_calls (trace r.2) = [].
Proof.
  intros r. unfold r.
  destruct (main_ends json_dumps py_repr w args (State h [])) as (t & Ht & Hend).
  simpl in Ht. rewrite Ht. intros Hr. rewrite Hr in Hend. simpl in Hend.
  destruct Hend as [[_ (m & -> & Hm)]|[[=] _]]. split_and!; [by eexists|done..].
Qed.

Lemma sys_exit_0_means_one_print_to_stdout_witness :
  let r := run (world_with (Raises FileNotFoundError)) args_show example_heap in
  (∃ m, trace r.2 = [Print Stdout m] ∧ is_error_message m = false)
  ∧ length (printed Stdout (trace r.2)) = 1
  ∧ printed Stderr (trace r.2) = []
  ∧ configure_calls (trace r.2) = [].
Proof.
  apply (sys_exit_0_means_one_print_to_stdout json_dumps_indent2 repr_unused
           (world_with (Raises FileNotFoundError)) args_show example_heap).
  reflexivity.
Defined.


(** ** The default action, case by case *)

(** Without [--netrc]: the banner unless both credentials are given, the
    call, and what the call comes back with. *)
Lemma configure_body_no_netrc w args σ :
  netrc args = false →
  configure_body w args σ
  = let both := given (username args) && given (password args) in
    let called :=
      (trace σ ++ (if both then [] else [Print Stdout MsgInteractiveBanner])
       ++ [CallConfigure (username args) (password args)
             (config_file (session args)) (host (session args))])%list in
    match configure w (username args) (password args)
            (config_file (session args)) (host (session args)) with
    | Returns path =>
        (Ret (), State (heap σ)
           (called ++ [Print Stdout (MsgConfigSaved
                         ((if both then EmptyString else newline)
                          ++ "Config saved to: " ++ path))]))
    | Raises (AuthenticationError exc) =>
        (Exit 1, State (heap σ)
           (called ++ [Print Stderr (MsgAuthenticationFailure exc)]))
    | Raises e => (Raise e, State (heap σ) called)
    end.
Proof.
  intros Hn. unfold configure_body. rewrite Hn.
  unfold try_except, bind, call_configure, print, emit, call, raise, sys_exit, ret, when.
  destruct (given (username args) && given (password args)); simpl;
    destruct (configure w _ _ _ _) as [path|[]]; simpl;
    by rewrite <- ?app_assoc.
Qed.

(** With [--netrc] and an entry for archive.org. *)
Lemma configure_body_netrc_entry w args σ hosts entry :
  netrc args = true → netrc_netrc w = Returns hosts →
  hosts !! "archive.org" = Some entry →
  configure_body w args σ
  = let called :=
      (trace σ ++ [Print Stderr MsgNetrcBanner;
                   CallConfigure (Some (login entry))
                     (Some (or_empty (netrc_password entry)))
                     (config_file (session args)) (host (session args))])%list in
    match configure w (Some (login entry)) (Some (or_empty (netrc_password entry)))
            (config_file (session args)) (host (session args)) with
    | Returns path =>
        (Ret (), State (heap σ)
           (called ++ [Print Stderr (MsgConfigSaved ("Config saved to: " ++ path))]))
    | Raises (AuthenticationError exc) =>
        (Exit 1, State (heap σ)
           (called ++ [Print Stderr (MsgAuthenticationFailure exc)]))
    | Raises e => (Raise e, State (heap σ) called)
    end.
Proof.
  intros Hn Hw Hh. unfold configure_body. rewrite Hn, Hw.
  unfold try_except, bind, call_configure, print, emit, call, raise, sys_exit, ret.
  simpl. rewrite Hh. simpl.
  destruct (configure w _ _ _ _) as [path|[]]; simpl; by rewrite <- ?app_assoc.
Qed.

(** X3. With [--netrc] (no action flag being set) and a netrc file that
    does not parse: after the banner the command prints
    "error: netrc.netrc() cannot parse your .netrc file." to stderr, nothing
    to stdout, does not call [configure], and exits with code 1. *)
Theorem netrc_file_that_does_not_parse json_dumps py_repr w args h :
  print_cookies args = false → show args = false → check args = false →
  netrc args = true → netrc_netrc w = Raises NetrcParseError →
  let r := main json_dumps py_repr w args (State h []) in
  r.1 = Exit 1
  ∧ printed Stderr (trace r.2)
    = ["Configuring 'ia' with netrc file...";
       "error: netrc.netrc() cannot parse your .netrc file."]
  ∧ printed Stdout (trace r.2) = []
  ∧ configure_calls (trace r.2) = [].
Proof.
  intros Hpc Hs Hc Hn Hw r. unfold r.
  rewrite main_default by done.
  by rewrite configure_body_netrc_parse_error.
Qed.

Lemma netrc_file_that_does_not_parse_witness :
  let r := run (world_with (Raises NetrcParseError)) args_netrc example_heap in
  r.1 = Exit 1
  ∧ printed Stderr (trace r.2)
    = ["Configuring 'ia' with netrc file...";
       "error: netrc.netrc() cannot parse your .netrc file."]
  ∧ printed Stdout (trace r.2) = []
  ∧ configure_calls (trace r.2) = [].
Proof.
  apply (netrc_file_that_does_not_parse json_dumps_indent2 repr_unused
           (world_with (Raises NetrcParseError)) args_netrc example_heap);
    reflexivity.
Defined.



(** X5. [--username] and [--password] are read by the default action
    without [--netrc] and by nothing else: as soon as [--netrc] or an action
    flag is set, the run is the same whatever the two options hold. *)
Theorem credentials_flags_are_ignored_elsewhere
    json_dumps py_repr w u p u' p' n s c pc sess σ :
  n || s || c || pc = true →
  main json_dumps py_repr w
    {| username := u; password := p; netrc := n; show := s; check := c;
       print_cookies := pc; session := sess |} σ
  = main json_dumps py_repr w
      {| username := u'; password := p'; netrc := n; show := s; check := c;
         print_cookies := pc; session := sess |} σ.
Proof.
  intros Hflags. rewrite !main_dispatch. unfold select_action. simpl.
  destruct pc; [done|]. destruct s; [done|]. destruct c; [done|].
  destruct n; [|done]. simpl. unfold configure_body. simpl. done.
Qed.

Lemma credentials_flags_are_ignored_elsewhere_witness :
  main json_dumps_indent2 repr_unused (world_with (Returns archive_org_entry))
    {| username := Some "carol"; password := Some "hunter2"; netrc := true;
       show := false; check := false; print_cookies := false;
       session := example_session (Raises (OtherError "ConnectionError")) |}
    (State example_heap [])
  = main json_dumps_indent2 repr_unused (world_with (Returns archive_org_entry))
      {| username := None; password := None; netrc := true;
         show := false; check := false; print_cookies := false;
         session := example_session (Raises (OtherError "ConnectionError")) |}
      (State example_heap []).
Proof.
  apply (credentials_flags_are_ignored_elsewhere json_dumps_indent2 repr_unused
           (world_with (Returns archive_org_entry)) (Some "carol") (Some "hunter2")
           None None true false false false).
  reflexivity.
Defined.




(** X7. In the default action, when [configure] raises
    [AuthenticationError(exc)]: the command prints a line break and
    "error: <exc>" to stderr as its last output, prints no "Config saved"
    message on either stream, and exits with code 1.  This holds with and
    without [--netrc] (with it, for a netrc file that has the archive.org
    entry). *)
Theorem authentication_failure_is_reported json_dumps py_repr w args h exc :
  print_cookies args = false → show args = false → check args = false →
  (∀ u p, configure w u p (config_file (session args)) (host (session args))
          = Raises (AuthenticationError exc)) →
  (netrc args = true →
   ∃ hosts entry, netrc_netrc w = Returns hosts ∧ hosts !! "archive.org" = Some entry) →
  let r := main json_dumps py_repr w args (State h []) in
  r.1 = Exit 1
  ∧ last (printed Stderr (trace r.2)) = Some (newline ++ "error: " ++ exc)
  ∧ (∀ s text, Print s (MsgConfigSaved text) ∉ trace r.2)
  ∧ length (configure_calls (trace r.2)) = 1.
Proof.
  intros Hpc Hs Hc Hcfg Hnetrc r. unfold r.
  rewrite main_default by done.
  destruct (netrc args) eqn:Hn.
  - destruct (Hnetrc eq_refl) as (hosts & entry & Hw & Hh).
    rewrite (configure_body_netrc_entry _ _ _ hosts entry) by done.
    simpl. rewrite Hcfg. simpl. split_and!; try done.
    intros s text Hin.
    repeat (apply elem_of_cons in Hin as [?|Hin]; [done|]). by apply elem_of_nil in Hin.
  - rewrite configure_body_no_netrc by done. simpl. rewrite Hcfg.
    destruct (given (username args) && given (password args)); simpl;
      (split_and!; try done); intros s text Hin;
      repeat (apply elem_of_cons in Hin as [?|Hin]; [done|]);
      by apply elem_of_nil in Hin.
Qed.

Lemma authentication_failure_is_reported_witness :
  let r := run (world_failing (AuthenticationError "bad password")
                  (Raises FileNotFoundError)) args_bob example_heap in
  r.1 = Exit 1
  ∧ last (printed Stderr (trace r.2)) = Some (newline ++ "error: " ++ "bad password")
  ∧ (∀ s text, Print s (MsgConfigSaved text) ∉ trace r.2)
  ∧ length (configure_calls (trace r.2)) = 1.
Proof.
  apply (authentication_failure_is_reported json_dumps_indent2 repr_unused
           (world_failing (AuthenticationError "bad password")
              (Raises FileNotFoundError)) args_bob example_heap "bad password");
    try reflexivity.
  intros [=].
Defined.

(** X8. The [try] statement of the default action handles
    [AuthenticationError] and nothing else of what [configure] raises:
    without [--netrc], any other exception of [configure] leaves [main]
    uncaught, with no error message printed and nothing printed after the
    call. *)
Theorem other_errors_of_configure_escape json_dumps py_repr w args h e :
  print_cookies args = false → show args = false → check args = false →
  netrc args = false →
  configure w (username args) (password args)
    (config_file (session args)) (host (session args)) = Raises e →
  (∀ exc, e ≠ AuthenticationError exc) →
  let r := main json_dumps py_repr w args (State h []) in
  r.1 = Raise e
  ∧ printed Stderr (trace r.2) = []
  ∧ last (trace r.2)
    = Some (CallConfigure (username args) (password args)
              (config_file (session args)) (host (session args))).
Proof.
  intros Hpc Hs Hc Hn Hcfg He r. unfold r.
  rewrite main_default by done.
  rewrite configure_body_no_netrc by done. simpl. rewrite Hcfg.
  destruct e; try (by destruct (He msg));
    destruct (given (username args) && given (password args)); done.
Qed.

Lemma other_errors_of_configure_escape_witness :
  let r := run (world_failing (OtherError "ConnectionError")
                  (Raises FileNotFoundError)) args_bob example_heap in
  r.1 = Raise (OtherError "ConnectionError")
  ∧ printed Stderr (trace r.2) = []
  ∧ last (trace r.2)
    = Some (CallConfigure (Some "bob") (Some "secret")
              (VStr "/home/alice/.config/internetarchive/ia.ini")
              (VStr "archive.org")).
Proof.
  apply (other_errors_of_configure_escape json_dumps_indent2 repr_unused
           (world_failing (OtherError "ConnectionError") (Raises FileNotFoundError))
           args_bob example_heap (OtherError "ConnectionError"));
    try reflexivity.
  intros exc [=].
Defined.

(** X9. No [AuthenticationError] leaves the default action, whoever raises
    it inside the [try] ([configure], or [netrc.netrc()] itself) and
    whatever the flags of the default action are: the [except] clause
    covers the whole action. *)
Theorem default_action_never_leaks_AuthenticationError
    json_dumps py_repr w args h :
  print_cookies args = false → show args = false → check args = false →
  match (main json_dumps py_repr w args (State h [])).1 with
  | Raise (AuthenticationError _) => False
  | _ => True
  end.
Proof.
  intros Hpc Hs Hc.
  rewrite main_default by done.
  unfold configure_body, call_configure, try_except, bind, when, print, emit,
    call, raise, sys_exit, ret.
  destruct (netrc args); simpl.
  - destruct (netrc_netrc w) as [hosts|e]; simpl.
    + destruct (hosts !! "archive.org") as [entry|]; simpl; [|done].
      destruct (configure w _ _ _ _) as [path|[]]; done.
    + destruct e; done.
  - destruct (negb (given (username args) && given (password args))); simpl;
      destruct (configure w _ _ _ _) as [path|[]]; done.
Qed.

Lemma default_action_never_leaks_AuthenticationError_witness :
  match (run (world_failing (AuthenticationError "bad password")
                (Raises (AuthenticationError "netrc")))
             args_netrc example_heap).1 with
  | Raise (AuthenticationError _) => False
  | _ => True
  end.
Proof.
  apply (default_action_never_leaks_AuthenticationError json_dumps_indent2
           repr_unused
           (world_failing (AuthenticationError "bad password")
              (Raises (AuthenticationError "netrc")))
           args_netrc example_heap); reflexivity.
Defined.

(** X10. With [--netrc] (no action flag being set), whatever the netrc
    file and [configure] do, nothing is printed to stdout: the banner, the
    errors and the saved-path message all go to stderr. *)
Theorem netrc_mode_prints_to_stderr_only json_dumps py_repr w args h :
  print_cookies args = false → show args = false → check args = false →
  netrc args = true →
  printed Stdout (trace (main json_dumps py_repr w args (State h [])).2) = [].
Proof.
  intros Hpc Hs Hc Hn.
  rewrite main_default by done.
  unfold configure_body, call_configure, try_except, bind, when, print, emit,
    call, raise, sys_exit, ret.
  rewrite Hn. simpl.
  destruct (netrc_netrc w) as [hosts|e]; simpl.
  - destruct (hosts !! "archive.org") as [entry|]; simpl; [|done].
    destruct (configure w _ _ _ _) as [path|[]]; done.
  - destruct e; done.
Qed.

Lemma netrc_mode_prints_to_stderr_only_witness :
  printed Stdout
    (trace (run (world_with (Returns archive_org_entry)) args_netrc example_heap).2)
  = [].
Proof.
  apply (netrc_mode_prints_to_stderr_only json_dumps_indent2 repr_unused
           (world_with (Returns archive_org_entry)) args_netrc example_heap);
    reflexivity.
Defined.


(** ** The collaborators *)

(** X12. [configure] is called at most once in a run, and not at all by
    [--print-cookies], [--show] and [--check]. *)
Theorem configure_is_called_at_most_once json_dumps py_repr w args h :
  let r := main json_dumps py_repr w args (State h []) in
  (length (configure_calls (trace r.2)) ≤ 1)%nat
  ∧ (print_cookies args || show args || check args = true →
     configure_calls (trace r.2) = []).
Proof.
  intros r. unfold r.
  assert (∀ t, Forall no_call t → configure_calls t = []) as Hnone.
  { induction 1 as [|[] t He Ht IH]; simpl in *; done. }
  assert (∀ m : M unit, inv (trace_all no_call) m (λ _, True) →
            configure_calls (trace (m (State h [])).2) = []) as Hinv.
  { intros m Hm. apply Hnone. destruct (Hm (State h [])) as [Hall _]; [constructor|done]. }
  rewrite main_dispatch. unfold select_action.
  destruct (print_cookies args); simpl.
  { rewrite Hinv; [simpl; split; [lia|done]|]. by apply trace_print_cookies_body. }
  destruct (show args); simpl.
  { rewrite Hinv; [simpl; split; [lia|done]|]. by apply trace_show_body. }
  destruct (check args); simpl.
  { rewrite Hinv; [simpl; split; [lia|done]|]. by apply trace_check_body. }
  split; [|done].
  unfold configure_body, call_configure, try_except, bind, when, print, emit,
    call, raise, sys_exit, ret.
  destruct (netrc args); simpl.
  - destruct (netrc_netrc w) as [hosts|e]; simpl.
    + destruct (hosts !! "archive.org") as [entry|]; simpl; [|lia].
      destruct (configure w _ _ _ _) as [path|[]]; simpl; lia.
    + destruct e; simpl; lia.
  - destruct (negb (given (username args) && given (password args))); simpl;
      destruct (configure w _ _ _ _) as [path|[]]; simpl; lia.
Qed.

(** ** Configurations and answers of another shape *)

(** X13. [--print-cookies] on a configuration whose [cookies] entry is not
    a mapping (a string, a number, [None], a list): [.get] does not exist on
    it, the [AttributeError] leaves [main] uncaught and nothing is
    printed. *)
Theorem print_cookies_on_a_section_that_is_no_mapping
    json_dumps py_repr w args h c d v :
  print_cookies args = true →
  config (session args) = VRef c → h !! c = Some (ODict d) →
  dict_get "cookies" d = Some v → not_a_mapping h v →
  let r := main json_dumps py_repr w args (State h []) in
  r.1 = Raise AttributeError ∧ trace r.2 = [].
Proof.
  intros Hpc Hcfg Hc Hsec Hv r. unfold r.
  rewrite main_print_cookies by done. unfold print_cookies_body. rewrite Hcfg.
  assert (bind (py_get (VRef c) "cookies" new_dict)
               (λ cookies, py_get cookies "logged-in-user" (ret VNone)) (State h [])
          = (Raise AttributeError, State (with_empty_dict h) [])) as Hget.
  { erewrite bind_Ret.
    2:{ rewrite (py_get_dict (State h []) _ _ _ _ Hc).
        by rewrite (bind_Ret _ _ _ _ _ (new_dict_run _)). }
    rewrite Hsec. cbn [default id]. unfold py_get.
    destruct v as [|b|z|s|l]; try done.
    destruct Hv as [xs Hl]. cbn [heap trace].
    assert (with_empty_dict h !! l = Some (OList xs)) as Hl'
      by apply (lookup_weaken _ _ _ _ Hl), with_empty_dict_extends.
    by rewrite (bind_Ret _ _ _ _ _ (deref_run (State (with_empty_dict h) []) _ _ Hl')). }
  by rewrite (bind_Raise _ _ _ _ _ Hget).
Qed.

Lemma print_cookies_on_a_section_that_is_no_mapping_witness :
  let r := run (world_with (Raises FileNotFoundError)) args_print_cookies flat_heap in
  r.1 = Raise AttributeError ∧ trace r.2 = [].
Proof.
  apply (print_cookies_on_a_section_that_is_no_mapping json_dumps_indent2
           repr_unused (world_with (Raises FileNotFoundError)) args_print_cookies
           flat_heap 0 [("cookies", VStr "none"); ("s3", VStr "none")] (VStr "none"));
    (reflexivity || exact I).
Defined.

(** X14. [--print-cookies] on a configuration that has no [cookies]
    section at all: the default [{}] stands in for it, both cookies count
    as missing, and the command exits 1 with the message for both. *)
Theorem print_cookies_without_a_cookies_section json_dumps py_repr w args h c d :
  print_cookies args = true →
  config (session args) = VRef c → h !! c = Some (ODict d) →
  dict_get "cookies" d = None →
  let r := main json_dumps py_repr w args (State h []) in
  r.1 = Exit 1
  ∧ printed Stdout (trace r.2) = []
  ∧ printed Stderr (trace r.2)
    = ["error: 'logged-in-user' and 'logged-in-sig' cookies not found in config file, try reconfiguring."].
Proof.
  intros Hpc Hcfg Hc Hsec r. unfold r.
  rewrite main_print_cookies by done.
  rewrite (print_cookies_body_run _ _ _ []); [done|].
  unfold cookies_of. simpl. by rewrite Hcfg, Hc, Hsec.
Qed.

Lemma print_cookies_without_a_cookies_section_witness :
  let r := run (world_with (Raises FileNotFoundError))
               args_print_cookies no_cookies_heap in
  r.1 = Exit 1
  ∧ printed Stdout (trace r.2) = []
  ∧ printed Stderr (trace r.2)
    = ["error: 'logged-in-user' and 'logged-in-sig' cookies not found in config file, try reconfiguring."].
Proof.
  apply (print_cookies_without_a_cookies_section json_dumps_indent2 repr_unused
           (world_with (Raises FileNotFoundError)) args_print_cookies
           no_cookies_heap 0 [("general", VRef 3)]); reflexivity.
Defined.

(** X15. [--show] on a configuration whose [s3] entry, or (with no [s3]
    entry) whose [cookies] entry, is a scalar (a string, a number, [None]):
    [.copy()] does not exist on it, the [AttributeError] leaves [main]
    uncaught and nothing is printed. *)
Theorem show_on_a_section_that_is_a_scalar json_dumps py_repr w args h c d v :
  print_cookies args = false → show args = true →
  config (session args) = VRef c → h !! c = Some (ODict d) →
  dict_get "s3" d = Some v
  ∨ (dict_get "s3" d = None ∧ dict_get "cookies" d = Some v) →
  scalar v →
  let r := main json_dumps py_repr w args (State h []) in
  r.1 = Raise AttributeError ∧ trace r.2 = [].
Proof.
  intros Hpc Hs Hcfg Hc Hsec Hv r. unfold r.
  rewrite main_show by done. rewrite show_body_sections, Hcfg.
  rewrite (bind_Ret _ _ _ _ _ (py_copy_run (State h []) _ _ Hc)). simpl.
  set (c' := fresh (dom h)).
  set (σ1 := State (<[c' := ODict d]> h) []).
  assert (heap σ1 !! c' = Some (ODict d)) as Hc' by apply lookup_insert_eq.
  assert (∀ section key, dict_get section d = Some v →
            redact_section c' section key σ1 = (Raise AttributeError, σ1)) as Hraise.
  { intros section key Hget. unfold redact_section.
    rewrite (bind_Ret _ _ _ _ _ (py_contains_dict _ _ _ _ Hc')).
    unfold dict_has. rewrite Hget. unfold when.
    rewrite (bind_Ret _ _ _ _ _ (py_getitem_dict _ _ _ _ _ Hc' Hget)).
    by destruct v. }
  destruct Hsec as [Hs3|[Hs3 Hck]].
  - by rewrite (bind_Raise _ _ _ _ _ (Hraise "s3" "secret" Hs3)).
  - rewrite (bind_Ret _ _ _ _ _ (redact_section_absent _ _ _ "s3" "secret" Hc' Hs3)).
    by rewrite (bind_Raise _ _ _ _ _ (Hraise "cookies" "logged-in-sig" Hck)).
Qed.

Lemma show_on_a_section_that_is_a_scalar_witness :
  let r := run (world_with (Raises FileNotFoundError)) args_show flat_heap in
  r.1 = Raise AttributeError ∧ trace r.2 = [].
Proof.
  apply (show_on_a_section_that_is_a_scalar json_dumps_indent2 repr_unused
           (world_with (Raises FileNotFoundError)) args_show flat_heap 0
           [("cookies", VStr "none"); ("s3", VStr "none")] (VStr "none"));
    first [reflexivity | exact I | left; reflexivity].
Defined.

(** X16. [--check] does not handle what [whoami()] raises: the exception
    leaves [main] uncaught and nothing is printed. *)
Theorem check_does_not_catch_what_whoami_raises json_dumps py_repr w args h e :
  print_cookies args = false → show args = false → check args = true →
  whoami (session args) = Raises e →
  let r := main json_dumps py_repr w args (State h []) in
  r.1 = Raise e ∧ trace r.2 = [].
Proof.
  intros Hpc Hs Hc Hw r. unfold r.
  rewrite main_check by done. unfold check_body. rewrite Hw.
  by rewrite (bind_Raise _ _ (State h []) e (State h [])).
Qed.

Lemma check_does_not_catch_what_whoami_raises_witness :
  let args := {| username := None; password := None; netrc := false;
                 show := false; check := true; print_cookies := false;
                 session := example_session (Raises (OtherError "ConnectionError")) |} in
  let r := run (world_with (Raises FileNotFoundError)) args example_heap in
  r.1 = Raise (OtherError "ConnectionError") ∧ trace r.2 = [].
Proof.
  apply (check_does_not_catch_what_whoami_raises json_dumps_indent2 repr_unused
           (world_with (Raises FileNotFoundError))
           {| username := None; password := None; netrc := false;
              show := false; check := true; print_cookies := false;
              session := example_session (Raises (OtherError "ConnectionError")) |}
           example_heap (OtherError "ConnectionError")); reflexivity.
Defined.

(** X17. [--check] on an answer whose [success] is [True] and that has no
    [value] entry: the lookup [whoami_info['value']] raises [KeyError],
    which leaves [main] uncaught before anything is printed. *)
Theorem check_on_a_success_without_a_value json_dumps py_repr w args h l d :
  print_cookies args = false → show args = false → check args = true →
  whoami (session args) = Returns (VRef l) → h !! l = Some (ODict d) →
  dict_get "success" d = Some (VBool true) → dict_get "value" d = None →
  let r := main json_dumps py_repr w args (State h []) in
  r.1 = Raise (KeyError "value") ∧ trace r.2 = [].
Proof.
  intros Hpc Hs Hc Hw Hl Hok Hval r. unfold r.
  rewrite main_check by done. unfold check_body. rewrite Hw. simpl call.
  rewrite (bind_Ret _ _ (State h []) (VRef l) (State h [])) by done.
  erewrite bind_Ret; [|by rewrite (py_get_dict (State h []) _ _ _ _ Hl)].
  rewrite Hok. simpl.
  assert (py_getitem (VRef l) "value" (State h [])
          = (Raise (KeyError "value"), State h [])) as Hget.
  { unfold py_getitem.
    rewrite (bind_Ret _ _ _ _ _ (deref_run (State h []) _ _ Hl)). by rewrite Hval. }
  by rewrite (bind_Raise _ _ _ _ _ (bind_Raise _ _ _ _ _ Hget)).
Qed.

Lemma check_on_a_success_without_a_value_witness :
  let r := run (world_with (Raises FileNotFoundError)) (args_check (VRef 4))
               nameless_heap in
  r.1 = Raise (KeyError "value") ∧ trace r.2 = [].
Proof.
  apply (check_on_a_success_without_a_value json_dumps_indent2 repr_unused
           (world_with (Raises FileNotFoundError)) (args_check (VRef 4))
           nameless_heap 4 [("success", VBool true)]); reflexivity.
Defined.


(** * Properties of [setup] *)

(** [setup] registers one parser, after those that are there, and no option
    string of it is taken twice. *)
Lemma setup_registers subparsers :
  ∃ p, configure_parser = Some p ∧ setup subparsers = Some (subparsers ++ [p])%list.
Proof. eexists. split; [vm_compute; reflexivity|reflexivity]. Qed.

Lemma setup_last subparsers ps p :
  setup subparsers = Some ps → last ps = Some p → configure_parser = Some p.
Proof.
  destruct (setup_registers subparsers) as (p0 & Hp0 & ->).
  intros [= <-]. rewrite last_snoc. by intros [= <-].
Qed.

Lemma reads_args_of_namespace ns args :
  reads ns args → args_of_namespace ns (session args) = Some args.
Proof.
  intros (Hu & Hp & Hn & Hs & Hc & Hpc & _). unfold args_of_namespace.
  rewrite Hu, Hp, Hn, Hs, Hc, Hpc. destruct args as [[u|] [p|] n s c pc sess]; done.
Qed.

Ltac compute_dest :=
  repeat match goal with
         | |- context [dest ?a] =>
             let x := eval vm_compute in (dest a) in change (dest a) with x
         end.

Ltac split_token tok :=
  repeat match goal with
         | |- context [String.eqb tok ?s] =>
             destruct (String.eqb_spec tok s); simpl
         end.

Lemma not_seen (f : nat → bool) seen j :
  existsb f seen = false → f j = true → j ∉ seen.
Proof.
  intros Hex Hf Hin. apply list_elem_of_In in Hin.
  assert (existsb f seen = true) by (apply existsb_exists; eauto). congruence.
Qed.

(** The seven arguments of the parser, by position. *)
Lemma find_option_cases p tok i a :
  configure_parser = Some p → find_option tok (arguments p) = Some (i, a) →
  (i = 0 ∧ arg_action_of a = ActHelp ∧ arg_group a = None)
  ∨ (i = 1 ∧ arg_action_of a = ActStore ∧ dest a = "username" ∧ arg_group a = None)
  ∨ (i = 2 ∧ arg_action_of a = ActStore ∧ dest a = "password" ∧ arg_group a = None)
  ∨ (i = 3 ∧ arg_action_of a = ActStoreTrue ∧ dest a = "netrc" ∧ arg_group a = None)
  ∨ (i = 4 ∧ arg_action_of a = ActStoreTrue ∧ dest a = "show" ∧ arg_group a = Some 0)
  ∨ (i = 5 ∧ arg_action_of a = ActStoreTrue ∧ dest a = "check" ∧ arg_group a = Some 0)
  ∨ (i = 6 ∧ arg_action_of a = ActStoreTrue ∧ dest a = "print_cookies"
     ∧ arg_group a = None).
Proof.
  intros Hp. vm_compute in Hp. injection Hp as <-. simpl.
  split_token tok; intros [= <- <-]; compute_dest; simpl; tauto.
Qed.

Lemma conflicts_show_check p seen i j a :
  configure_parser = Some p → arg_group a = Some 0 →
  conflicts p seen i a = false →
  (i = 4 ∧ j = 5) ∨ (i = 5 ∧ j = 4) → j ∉ seen.
Proof.
  intros Hp Hg Hc Hij. vm_compute in Hp. injection Hp as <-.
  unfold conflicts in Hc. rewrite Hg in Hc.
  apply (not_seen _ _ _ Hc). by destruct Hij as [[-> ->]|[-> ->]].
Qed.

Lemma initial_namespace_reads p sess :
  configure_parser = Some p →
  reads (initial_namespace p)
    {| username := None; password := None; netrc := false; show := false;
       check := false; print_cookies := false; session := sess |}.
Proof. intros Hp. vm_compute in Hp. injection Hp as <-. by vm_compute. Qed.

Ltac reads_after_set :=
  match goal with
  | H : reads _ _ |- reads _ _ =>
      unfold reads in H |- *; cbn [username password netrc show check print_cookies];
      destruct H as (? & ? & ? & ? & ? & ? & ?);
      split_and!;
      first [ apply dict_get_set_eq | by rewrite dict_get_set_ne ]
  end.

Ltac absurd_eq := let H := fresh in intros H; discriminate H.

Ltac parsed_rest args' :=
  match goal with
  | |- ∃ _, _ => exists args'; split_and!; eassumption
  end.

(** Reading options keeps the namespace complete and [show] and [check]
    exclusive. *)
Lemma consume_reads p :
  configure_parser = Some p →
  ∀ n argv, (length argv ≤ n)%nat →
  ∀ seen ns args ns',
    reads ns args →
    (show args = true → 4 ∈ seen) → (check args = true → 5 ∈ seen) →
    show args && check args = false →
    consume p seen ns argv = Parsed ns' →
    ∃ args', reads ns' args' ∧ show args' && check args' = false
             ∧ session args' = session args.
Proof.
  intros Hp.
  pose proof (λ tok i a, find_option_cases p tok i a Hp) as Hcases.
  pose proof (λ seen i j a, conflicts_show_check p seen i j a Hp) as Hexcl.
  clear Hp.
  induction n as [|n IH]; intros [|tok rest] Hlen seen ns args ns' Hr Hs Hc Hsc;
    simpl in *; try lia; try (intros [= <-]; exists args; by split_and!).
  destruct (find_option tok (arguments p)) as [[i a]|] eqn:Hfind; [|absurd_eq].
  destruct (conflicts p seen i a) eqn:Hconf; [absurd_eq|].
  destruct (Hcases _ _ _ Hfind)
    as [(-> & -> & Hg)|[(-> & -> & -> & Hg)|[(-> & -> & -> & Hg)|[(-> & -> & -> & Hg)|
        [(-> & -> & -> & Hg)|[(-> & -> & -> & Hg)|(-> & -> & -> & Hg)]]]]]];
    try absurd_eq.
  - (* --username *)
    destruct rest as [|v rest']; [absurd_eq|].
    destruct (starts_with_dash v); [absurd_eq|].
    intros Hcons.
    apply (IH rest' ltac:(simpl in *; lia) _ _
             {| username := Some v; password := password args;
                netrc := netrc args; show := show args; check := check args;
                print_cookies := print_cookies args; session := session args |})
      in Hcons as (args' & ? & ? & ?);
      clear IH Hcases Hexcl;
      first [ parsed_rest args' | reads_after_set
            | by simpl; intros; right; auto | done ].
  - (* --password *)
    destruct rest as [|v rest']; [absurd_eq|].
    destruct (starts_with_dash v); [absurd_eq|].
    intros Hcons.
    apply (IH rest' ltac:(simpl in *; lia) _ _
             {| username := username args; password := Some v;
                netrc := netrc args; show := show args; check := check args;
                print_cookies := print_cookies args; session := session args |})
      in Hcons as (args' & ? & ? & ?);
      clear IH Hcases Hexcl;
      first [ parsed_rest args' | reads_after_set
            | by simpl; intros; right; auto | done ].
  - (* --netrc *)
    intros Hcons.
    apply (IH rest ltac:(lia) _ _
             {| username := username args; password := password args;
                netrc := true; show := show args; check := check args;
                print_cookies := print_cookies args; session := session args |})
      in Hcons as (args' & ? & ? & ?);
      clear IH Hcases Hexcl;
      first [ parsed_rest args' | reads_after_set
            | by simpl; intros; right; auto | done ].
  - (* --show *)
    intros Hcons.
    assert (check args = false) as Hcheck.
    { destruct (check args); [|done].
      by destruct (Hexcl seen 4 5 a Hg Hconf ltac:(auto) (Hc eq_refl)). }
    apply (IH rest ltac:(lia) _ _
             {| username := username args; password := password args;
                netrc := netrc args; show := true; check := check args;
                print_cookies := print_cookies args; session := session args |})
      in Hcons as (args' & ? & ? & ?);
      clear IH Hcases Hexcl;
      first [ parsed_rest args' | reads_after_set | by simpl; intros; left
            | by simpl; intros; right; auto | done ].
  - (* --check *)
    intros Hcons.
    assert (show args = false) as Hshow.
    { destruct (show args); [|done].
      by destruct (Hexcl seen 5 4 a Hg Hconf ltac:(auto) (Hs eq_refl)). }
    apply (IH rest ltac:(lia) _ _
             {| username := username args; password := password args;
                netrc := netrc args; show := show args; check := true;
                print_cookies := print_cookies args; session := session args |})
      in Hcons as (args' & ? & ? & ?);
      clear IH Hcases Hexcl;
      first [ parsed_rest args' | reads_after_set | by simpl; intros; left
            | by simpl; intros; right; auto | by simpl; rewrite Hshow ].
  - (* --print-cookies *)
    intros Hcons.
    apply (IH rest ltac:(lia) _ _
             {| username := username args; password := password args;
                netrc := netrc args; show := show args; check := check args;
                print_cookies := true; session := session args |})
      in Hcons as (args' & ? & ? & ?);
      clear IH Hcases Hexcl;
      first [ parsed_rest args' | reads_after_set
            | by simpl; intros; right; auto | done ].
Qed.


(** X18. Whatever command line the parser of [setup] accepts, the
    namespace has every attribute that [main] reads ([username],
    [password], [netrc], [show], [check], [print_cookies]), of the type
    [main] expects, it has [main] as [func], and [show] and [check] are not
    both set: the two belong to one mutually exclusive group. *)
Theorem parsed_namespace_is_what_main_reads subparsers ps p argv ns sess :
  setup subparsers = Some ps → last ps = Some p →
  parse_args p argv = Parsed ns →
  ∃ args, args_of_namespace ns sess = Some args
          ∧ show args && check args = false
          ∧ dict_get "func" ns = Some (NsFunc "main").
Proof.
  intros Hsetup Hlast Hparse.
  pose proof (setup_last _ _ _ Hsetup Hlast) as Hp.
  pose proof (initial_namespace_reads p sess Hp) as Hinit.
  pose proof (consume_reads p Hp (length argv) argv (le_n _) [] _ _ ns Hinit) as Hcr.
  clear Hp Hsetup Hlast.
  destruct Hcr as (args & Hr & Hsc & Hsess).
  - simpl. intros H. discriminate H.
  - simpl. intros H. discriminate H.
  - reflexivity.
  - unfold parse_args in Hparse.
    destruct (forallb (recognised p) argv); [exact Hparse|discriminate Hparse].
  - exists args. split; [|split; [exact Hsc|apply Hr]].
    simpl in Hsess. rewrite <- Hsess. by apply reads_args_of_namespace.
Qed.

Lemma parsed_namespace_is_what_main_reads_witness :
  ∃ args,
    args_of_namespace
      [("username", NsStr "bob"); ("password", NsNone); ("netrc", NsBool false);
       ("show", NsBool true); ("check", NsBool false);
       ("print_cookies", NsBool true); ("func", NsFunc "main")]
      (example_session (Raises (OtherError "ConnectionError"))) = Some args
    ∧ show args && check args = false
    ∧ dict_get "func"
        [("username", NsStr "bob"); ("password", NsNone); ("netrc", NsBool false);
         ("show", NsBool true); ("check", NsBool false);
         ("print_cookies", NsBool true); ("func", NsFunc "main")]
      = Some (NsFunc "main").
Proof.
  destruct (setup_registers []) as (p & Hp & Hsetup).
  apply (parsed_namespace_is_what_main_reads [] _ p ["-u"; "bob"; "-c"; "--show"]
           _ _ Hsetup (last_snoc _ _)).
  clear Hsetup. vm_compute in Hp. injection Hp as <-. vm_compute. reflexivity.
Defined.

(** X19. The other way round: every combination of the options that
    [main] distinguishes, except [show] together with [check], is what the
    parser of [setup] reads from a command line, namely from the long
    options of the combination (the values of [--username] and
    [--password] not starting with a dash). *)
Theorem every_combination_has_a_command_line subparsers ps p args :
  setup subparsers = Some ps → last ps = Some p →
  plain (username args) → plain (password args) →
  show args && check args = false →
  ∃ ns, parse_args p (command_line (username args) (password args) (netrc args)
                        (show args) (check args) (print_cookies args))
        = Parsed ns
        ∧ args_of_namespace ns (session args) = Some args.
Proof.
  intros Hsetup Hlast Hu Hpw Hsc.
  pose proof (setup_last _ _ _ Hsetup Hlast) as Hp. clear Hsetup Hlast.
  vm_compute in Hp. injection Hp as <-.
  destruct args as [u pw n s c pc sess].
  cbn [username password netrc show check print_cookies session] in *.
  destruct u as [u|], pw as [pw|], n, s, c, pc; try discriminate Hsc;
    cbn [plain] in Hu, Hpw; clear Hsc;
    lazy -[starts_with_dash]; rewrite ?Hu; lazy -[starts_with_dash]; rewrite ?Hpw;
    eexists; (split; lazy; reflexivity).
Qed.

Lemma every_combination_has_a_command_line_witness :
  ∃ p ns, configure_parser = Some p
          ∧ parse_args p ["--username"; "bob"; "--password"; "secret"] = Parsed ns
          ∧ args_of_namespace ns (session args_bob) = Some args_bob.
Proof.
  destruct (setup_registers []) as (p & Hp & Hsetup).
  destruct (every_combination_has_a_command_line [] _ p args_bob Hsetup (last_snoc _ _))
    as (ns & Hparse & Hargs); [reflexivity..|].
  exists p, ns. split; [exact Hp|split; [exact Hparse|exact Hargs]].
Defined.

Lemma long_form_starts_with_dash v :
  starts_with_dash (long_form v) = starts_with_dash v.
Proof.
  unfold long_form.
  repeat match goal with
         | |- context [String.eqb v ?s] => destruct (String.eqb_spec v s); [by subst|]
         end.
  reflexivity.
Qed.

Lemma long_form_plain v : starts_with_dash v = false → long_form v = v.
Proof.
  intros Hv. unfold long_form.
  repeat match goal with
         | |- context [String.eqb v ?s] =>
             destruct (String.eqb_spec v s); [subst; discriminate Hv|]
         end.
  reflexivity.
Qed.

Lemma find_option_long_form p tok :
  configure_parser = Some p →
  find_option (long_form tok) (arguments p) = find_option tok (arguments p).
Proof.
  intros Hp. vm_compute in Hp. injection Hp as <-. unfold long_form.
  repeat match goal with
         | |- context [String.eqb tok ?s] =>
             destruct (String.eqb_spec tok s); [by subst|]
         end.
  reflexivity.
Qed.

Lemma consume_long_form p :
  configure_parser = Some p →
  ∀ n argv, (length argv ≤ n)%nat →
  ∀ seen ns, consume p seen ns (long_form <$> argv) = consume p seen ns argv.
Proof.
  intros Hp. pose proof (λ tok, find_option_long_form p tok Hp) as Hfind. clear Hp.
  induction n as [|n IH]; intros [|tok rest] Hlen seen ns;
    simpl in *; try lia; try reflexivity.
  rewrite Hfind.
  destruct (find_option tok (arguments p)) as [[i a]|]; [|reflexivity].
  destruct (conflicts p seen i a); [reflexivity|].
  destruct (arg_action_of a); [reflexivity| |by apply IH; lia].
  destruct rest as [|v rest']; [reflexivity|]. simpl.
  rewrite long_form_starts_with_dash.
  destruct (starts_with_dash v) eqn:Hv; [reflexivity|].
  rewrite (long_form_plain v Hv). apply IH. simpl in Hlen. lia.
Qed.

Lemma recognised_long_form p tok :
  configure_parser = Some p → recognised p (long_form tok) = recognised p tok.
Proof.
  intros Hp. unfold recognised.
  by rewrite long_form_starts_with_dash, (find_option_long_form p tok Hp).
Qed.

(** X20. A short option is read as its long option.  For every command
    line that the model covers (every token that starts with a dash is an
    option string of the parser, and the value of [--username] or
    [--password] does not start with a dash): the command line with [-u],
    [-p], [-n], [-s], [-C], [-c] and [-h] written out as [--username],
    [--password], [--netrc], [--show], [--check], [--print-cookies] and
    [--help] is covered as well and is parsed to the same result, the same
    namespace or the same exit status.  So [-c] asks for the cookies and
    [-C] for the check. *)
Theorem short_options_read_as_long_ones subparsers ps p argv :
  setup subparsers = Some ps → last ps = Some p →
  parse_args p argv ≠ Unmodelled →
  parse_args p (long_form <$> argv) ≠ Unmodelled
  ∧ parse_args p (long_form <$> argv) = parse_args p argv.
Proof.
  intros Hsetup Hlast Hmodelled.
  pose proof (setup_last _ _ _ Hsetup Hlast) as Hp.
  pose proof (λ tok, recognised_long_form p tok Hp) as Hrec.
  pose proof (consume_long_form p Hp (length argv) argv (le_n _)) as Hcons.
  clear Hp Hsetup Hlast.
  assert (forallb (recognised p) (long_form <$> argv) = forallb (recognised p) argv)
    as Hall.
  { clear Hcons Hmodelled. induction argv as [|tok rest IH]; [reflexivity|].
    rewrite fmap_cons. cbn [forallb]. by rewrite Hrec, IH. }
  assert (parse_args p (long_form <$> argv) = parse_args p argv) as Heq.
  { unfold parse_args. by rewrite Hcons, Hall. }
  split; [by rewrite Heq|exact Heq].
Qed.

Lemma short_options_read_as_long_ones_witness :
  ∃ p, configure_parser = Some p
       ∧ parse_args p ["--print-cookies"; "--check"; "--username"; "bob"] ≠ Unmodelled
       ∧ parse_args p ["--print-cookies"; "--check"; "--username"; "bob"]
         = parse_args p ["-c"; "-C"; "-u"; "bob"].
Proof.
  destruct (setup_registers []) as (p & Hp & Hsetup).
  exists p. split; [exact Hp|].
  apply (short_options_read_as_long_ones [] _ p ["-c"; "-C"; "-u"; "bob"] Hsetup
           (last_snoc _ _)).
  clear Hsetup. vm_compute in Hp. injection Hp as <-. vm_compute. discriminate.
Defined.
